(** * bandsaw: auto-trimming of PNG images

    A shallow embedding of [src/index.js] (the [trim] entry point, the
    per-image [trimItem] / [trimCanvas] pipeline and the helpers [clamp],
    [isBetween], [encodeAsBase64] and [getPngDimensions]) together with the
    properties the specification states about them. *)

From Stdlib Require Import ZArith Lia Strings.Byte Ascii String.
From Stdlib Require Import Floats.PrimFloat Floats.SpecFloat Floats.FloatOps.
From stdpp Require Import base list strings gmap.

Local Open Scope Z_scope.

(** ** JavaScript values

    The program computes with [null] (the initial bounds), [undefined]
    (what [clamp] returns when every branch is skipped) and numbers.
    A number is a double.  The doubles the program derives from a canvas
    are integers, written [Int z]; the padding is the caller's and may be
    any double, so next to [NaN] there is [Dbl f] for a double [f] that is
    not an integer: a fraction or an infinity. *)
Module JS.

Inductive number : Type :=
| NaN
| Int (z : Z)
| Dbl (f : float).

Inductive val : Type :=
| Null
| Undefined
| Num (n : number).

(** The double nearest to the integer [z], which is [z] itself up to
    [2^53]. *)
Definition double_of (z : Z) : float :=
  SF2Prim (binary_normalize prec emax z 0 false).

(** The integer a double is equal to, if it is equal to one. *)
Definition integer_of (f : float) : option Z :=
  match Prim2SF f with
  | S754_zero _ => Some 0
  | S754_finite s m e =>
      let sign (z : Z) := if s then - z else z in
      if 0 <=? e then Some (sign (Z.pos m * 2 ^ e))
      else if Z.pos m mod 2 ^ (- e) =? 0 then Some (sign (Z.pos m / 2 ^ (- e)))
      else None
  | _ => None
  end.

(** A double without its fraction, rounded toward zero; [NaN] and the
    infinities have no such integer. *)
Definition integer_part (f : float) : option Z :=
  match Prim2SF f with
  | S754_zero _ => Some 0
  | S754_finite s m e =>
      let a := if 0 <=? e then Z.pos m * 2 ^ e else Z.pos m / 2 ^ (- e) in
      Some (if s then - a else a)
  | _ => None
  end.

Definition to_double (n : number) : float :=
  match n with
  | NaN => nan
  | Int z => double_of z
  | Dbl f => f
  end.

Definition of_double (f : float) : number :=
  if is_nan f then NaN
  else match integer_of f with
       | Some z => Int z
       | None => Dbl f
       end.

(** [ToNumber]: [null] becomes [0], [undefined] becomes [NaN]. *)
Definition ToNumber (v : val) : number :=
  match v with
  | Null => Int 0
  | Undefined => NaN
  | Num n => n
  end.

(** [ToBoolean]: [null], [undefined], [NaN] and [0] are falsy. *)
Definition ToBoolean (v : val) : bool :=
  match v with
  | Num (Int z) => negb (z =? 0)
  | Num (Dbl f) => negb (is_zero f) && negb (is_nan f)
  | _ => false
  end.

(** [a + b] and [a - b].  Two integers are added exactly, which is what
    doubles do as long as the operands and the result are at most [2^53]
    in absolute value (the coordinates of a canvas are below [2^31]); any
    other sum is the double addition, rounded to the nearest double. *)
Definition add (a b : number) : number :=
  match a, b with
  | NaN, _ => NaN
  | _, NaN => NaN
  | Int x, Int y => Int (x + y)
  | _, _ => of_double (PrimFloat.add (to_double a) (to_double b))
  end.

Definition sub (a b : number) : number :=
  match a, b with
  | NaN, _ => NaN
  | _, NaN => NaN
  | Int x, Int y => Int (x - y)
  | _, _ => of_double (PrimFloat.sub (to_double a) (to_double b))
  end.

(** [a % b] for integers: the sign follows the dividend; [NaN] when [b]
    is [0]. *)
Definition rem (x y : Z) : number :=
  if y =? 0 then NaN else Int (Z.rem x y).

(** [ToInt32] on an integer: wrap into [-2^31, 2^31). *)
Definition wrap32 (z : Z) : Z := (z + 2 ^ 31) mod 2 ^ 32 - 2 ^ 31.

(** [~~(a / b)] for integers: the quotient truncated toward zero and
    wrapped to 32 bits ([a / b] is rounded to a double, which for
    integers below [2^53] never reaches the next integer).  [~~] sends
    [NaN] and the infinities (division by [0]) to [0]. *)
Definition trunc_div (x y : Z) : number :=
  if y =? 0 then Int 0 else Int (wrap32 (Z.quot x y)).

(** Comparisons of numbers: anything compared with [NaN] is [false]. *)
Definition lt (a b : number) : bool :=
  match a, b with
  | NaN, _ => false
  | _, NaN => false
  | Int x, Int y => x <? y
  | _, _ => PrimFloat.ltb (to_double a) (to_double b)
  end.

Definition le (a b : number) : bool :=
  match a, b with
  | NaN, _ => false
  | _, NaN => false
  | Int x, Int y => x <=? y
  | _, _ => PrimFloat.leb (to_double a) (to_double b)
  end.

Definition equal (a b : number) : bool :=
  match a, b with
  | NaN, _ => false
  | _, NaN => false
  | Int x, Int y => x =? y
  | _, _ => PrimFloat.eqb (to_double a) (to_double b)
  end.

(** The operators on values coerce both operands with [ToNumber]
    (no operand of the program is a string). *)
Definition minus (a b : val) : val := Num (sub (ToNumber a) (ToNumber b)).
Definition plus (a b : val) : val := Num (add (ToNumber a) (ToNumber b)).
Definition less (a b : val) : bool := lt (ToNumber a) (ToNumber b).
Definition greater (a b : val) : bool := lt (ToNumber b) (ToNumber a).
Definition less_eq (a b : val) : bool := le (ToNumber a) (ToNumber b).
Definition greater_eq (a b : val) : bool := le (ToNumber b) (ToNumber a).

(** [a === b]: no coercion, and [NaN] differs from itself. *)
Definition strict_eq (a b : val) : bool :=
  match a, b with
  | Null, Null => true
  | Undefined, Undefined => true
  | Num x, Num y => equal x y
  | _, _ => false
  end.

(** [isNaN(v)] *)
Definition isNaN (v : val) : bool :=
  match ToNumber v with
  | NaN => true
  | Int _ => false
  | Dbl f => is_nan f
  end.

End JS.

Import JS.

Coercion Int : Z >-> number.
Coercion Num : number >-> val.

(** ** The helpers [isBetween] and [clamp] *)

(** [isBetween(value, min, max)].  The only caller, [clamp], passes three
    arguments, so [arguments.length < 3] is [false]. *)
Definition isBetween (value min max : val) : bool :=
  if (negb (ToBoolean min) && negb (strict_eq min (Num (Int 0))))
     || (negb (ToBoolean max) && negb (strict_eq max (Num (Int 0))))
     || false
  then false
  else greater_eq value min && less_eq value max.

(** [clamp(value, min, max)]: a call that takes none of the three
    branches falls off the end of the function and yields [undefined]. *)
Definition clamp (value min max : val) : val :=
  if isBetween value min max then value
  else if less value min then min
  else if greater value max then max
  else Undefined.

(** ** Canvases and bounds *)

(** A painted canvas: its dimensions and the [data] array of
    [context.getImageData(0, 0, canvas.width, canvas.height)], four
    bytes (R, G, B, A) per pixel in row-major order. *)
Module canvas.
Record t : Type := mk { width : Z; height : Z; data : list byte }.
End canvas.

(** The object [bound] of [trimCanvas]. *)
Module bound.
Record t : Type := mk { top : val; left : val; right : val; bottom : val }.
End bound.

(** The keys of [bound], in the order [Object.keys] lists them. *)
Inductive key : Type := Ktop | Kleft | Kright | Kbottom.

Definition key_name (k : key) : string :=
  match k with
  | Ktop => "top"
  | Kleft => "left"
  | Kright => "right"
  | Kbottom => "bottom"
  end.

Definition keys : list key := [Ktop; Kleft; Kright; Kbottom].

Definition get (b : bound.t) (k : key) : val :=
  match k with
  | Ktop => bound.top b
  | Kleft => bound.left b
  | Kright => bound.right b
  | Kbottom => bound.bottom b
  end.

Definition set (b : bound.t) (k : key) (v : val) : bound.t :=
  match k with
  | Ktop => bound.mk v (bound.left b) (bound.right b) (bound.bottom b)
  | Kleft => bound.mk (bound.top b) v (bound.right b) (bound.bottom b)
  | Kright => bound.mk (bound.top b) (bound.left b) v (bound.bottom b)
  | Kbottom => bound.mk (bound.top b) (bound.left b) (bound.right b) v
  end.

(** [Object.keys(bound).forEach((key) => { bound[key] = f(key, bound[key]) })] *)
Definition forEach_key (f : key -> val -> val) (b : bound.t) : bound.t :=
  fold_left (fun acc k => set acc k (f k (get acc k))) keys b.

(** Does the text [pat] occur in [s]?  The patterns of the program are
    alternations of plain lower-case words and the keys are lower-case, so
    the [i] flag of [/left|right/i] changes nothing. *)
Definition occurs (pat s : string) : bool :=
  match String.index 0 pat s with
  | Some _ => true
  | None => false
  end.

(** [/left|top/.test(key)] *)
Definition test_left_top (k : key) : bool :=
  occurs "left" (key_name k) || occurs "top" (key_name k).

(** [/left|right/i.test(key)] *)
Definition test_left_right (k : key) : bool :=
  occurs "left" (key_name k) || occurs "right" (key_name k).

(** ** The pixel scan of [trimCanvas] *)

(** [pixels.data[i + 3] !== 0].  Reading past the end of the array gives
    [undefined], which is [!== 0]. *)
Definition alpha_nonzero (d : list byte) (i : Z) : bool :=
  match d !! Z.to_nat (i + 3) with
  | Some a => negb (Byte.eqb a x00)
  | None => true
  end.

(** [x = (i / 4) % canvas.width].  [i] is a multiple of [4] throughout the
    loop, so [i / 4] is exact. *)
Definition pixel_x (c : canvas.t) (i : Z) : number :=
  rem (Z.quot i 4) (canvas.width c).

(** [y = ~~(i / 4 / canvas.width)] *)
Definition pixel_y (c : canvas.t) (i : Z) : number :=
  trunc_div (Z.quot i 4) (canvas.width c).

Definition initial_bound : bound.t := bound.mk Null Null Null Null.

(** The body of the [for] loop at offset [i]. *)
Definition scan_body (c : canvas.t) (b : bound.t) (i : Z) : bound.t :=
  if alpha_nonzero (canvas.data c) i then
    let x := Num (pixel_x c i) in
    let y := Num (pixel_y c i) in
    {| bound.top := if strict_eq (bound.top b) Null then y else bound.top b;
       bound.left :=
         if strict_eq (bound.left b) Null || less x (bound.left b)
         then x else bound.left b;
       bound.right :=
         if strict_eq (bound.right b) Null || less (bound.right b) x
         then x else bound.right b;
       bound.bottom :=
         if strict_eq (bound.bottom b) Null || less (bound.bottom b) y
         then y else bound.bottom b |}
  else b.

(** [for (i = ...; i < l; i += 4) body].  Each turn advances [i] by four,
    so [l] turns always suffice; [fuel] counts them. *)
Fixpoint scan_loop (fuel : nat) (c : canvas.t) (l i : Z) (b : bound.t) :
    bound.t :=
  match fuel with
  | O => b
  | S fuel' =>
      if i <? l then scan_loop fuel' c l (i + 4) (scan_body c b i) else b
  end.

(** The bounds after the loop, started at [i = 0] with every bound [null]. *)
Definition scan (c : canvas.t) : bound.t :=
  let l := Z.of_nat (length (canvas.data c)) in
  scan_loop (length (canvas.data c)) c l 0 initial_bound.

(** ** Padding and clamping *)

(** "Attempt to add padding to all sides" *)
Definition add_padding (padding : val) (b : bound.t) : bound.t :=
  forEach_key
    (fun k v => if test_left_top k then minus v padding else plus v padding) b.

(** "Ensure that the padding never exceeds width/height parameters or is
    below 0" *)
Definition clamp_bound (c : canvas.t) (b : bound.t) : bound.t :=
  forEach_key
    (fun k v =>
       clamp v (Num (Int 0))
         (if test_left_right k then Num (Int (canvas.width c))
          else Num (Int (canvas.height c)))) b.

(** The object [bound] when [trimCanvas] computes the crop box from it. *)
Definition crop_bound (c : canvas.t) (padding : val) : bound.t :=
  clamp_bound c (add_padding padding (scan c)).

(** ** File names *)

Definition is_separator (a : ascii) : bool :=
  Ascii.eqb a "/" || Ascii.eqb a "\".

Fixpoint has_separator (s : string) : bool :=
  match s with
  | EmptyString => false
  | String a rest => is_separator a || has_separator rest
  end.

(** [filepath.split(/(\/|\\)/).pop()]: what follows the last separator. *)
Fixpoint last_segment (s : string) : string :=
  match s with
  | EmptyString => EmptyString
  | String a rest =>
      if is_separator a || has_separator rest then last_segment rest else s
  end.

(** [/\.png$/.test(item)] *)
Definition ends_with_png (s : string) : bool :=
  let n := String.length s in
  (4 <=? n)%nat && String.eqb (String.substring (n - 4) 4 s) ".png".

(** [s.replace(/\.png$/, "")] *)
Definition strip_png (s : string) : string :=
  if ends_with_png s then String.substring 0 (String.length s - 4) s else s.


(** ** The result record and [trimCanvas] *)

(** What the calls into the platform throw. *)
Inductive thrown : Type :=
| InvalidCharacterError
| RangeError
| IndexSizeError
| TypeError.

(** An argument of [getImageData], declared [[EnforceRange] long]: [NaN]
    and the infinities are a [TypeError], a fraction is cut off, and an
    integer outside [-2^31, 2^31 - 1] is a [TypeError] again. *)
Definition enforce_range (v : val) : thrown + Z :=
  let long (z : Z) : thrown + Z :=
    if (- 2 ^ 31 <=? z) && (z <? 2 ^ 31) then inr z else inl TypeError in
  match ToNumber v with
  | NaN => inl TypeError
  | Int z => long z
  | Dbl f =>
      match integer_part f with
      | Some z => long z
      | None => inl TypeError
      end
  end.

(** [context.getImageData(sx, sy, sw, sh)]: the four arguments are
    converted in turn, and a width or height of zero is an
    [IndexSizeError].  (A negative width or height is allowed: the
    rectangle then extends to the left of or above its corner.)  The pixels
    it returns are not interpreted. *)
Definition getImageData (sx sy sw sh : val) : thrown + unit :=
  match enforce_range sx with
  | inl e => inl e
  | inr _ =>
      match enforce_range sy with
      | inl e => inl e
      | inr _ =>
          match enforce_range sw with
          | inl e => inl e
          | inr w =>
              match enforce_range sh with
              | inl e => inl e
              | inr h =>
                  if (w =? 0) || (h =? 0) then inl IndexSizeError else inr tt
              end
          end
      end
  end.

Module result.
Record t : Type := mk {
  name : string;
  fullName : string;
  path : string;
  left : val;
  top : val;
  right : val;
  bottom : val;
  width : val;
  height : val;
  naturalWidth : val;
  naturalHeight : val;
  geometricBounds : list val
}.
End result.

(** What [fs.writeFileSync] stores at [target]: the PNG encoding of
    [context.getImageData(sx, sy, sw, sh)] taken from the canvas [source].
    The calls that cut and encode the pixels are not interpreted; the
    write is recorded by the rectangle the program asks for. *)
Module write.
Record t : Type := mk {
  target : string;
  source : canvas.t;
  sx : val;
  sy : val;
  sw : val;
  sh : val
}.
End write.

(** The files written so far, oldest first. *)
Definition disk : Type := list write.t.

(** [trimCanvas(canvas, filepath, padding)], threading the written files.
    Either call of [getImageData] may throw; the second one comes before
    [fs.writeFileSync], so then nothing is written and nothing returned. *)
Definition trimCanvas (c : canvas.t) (filepath : string) (padding : val)
    (d : disk) : thrown + disk * result.t :=
  match
    getImageData (Num (Int 0)) (Num (Int 0)) (Num (Int (canvas.width c)))
      (Num (Int (canvas.height c)))
  with
  | inl e => inl e
  | inr _ =>
      let bound := crop_bound c padding in
      let trimHeight := minus (bound.bottom bound) (bound.top bound) in
      let trimWidth := minus (bound.right bound) (bound.left bound) in
      match
        getImageData (bound.left bound) (bound.top bound) trimWidth trimHeight
      with
      | inl e => inl e
      | inr _ =>
          let d' :=
            d ++ [write.mk filepath c (bound.left bound) (bound.top bound)
                    trimWidth trimHeight] in
          inr
            (d',
             {| result.name := strip_png (last_segment filepath);
                result.fullName := last_segment filepath;
                result.path := filepath;
                result.left := bound.left bound;
                result.top := bound.top bound;
                result.right :=
                  minus (Num (Int (canvas.width c))) (bound.right bound);
                result.bottom :=
                  minus (Num (Int (canvas.height c))) (bound.bottom bound);
                result.width := minus (bound.right bound) (bound.left bound);
                result.height := minus (bound.bottom bound) (bound.top bound);
                result.naturalWidth := Num (Int (canvas.width c));
                result.naturalHeight := Num (Int (canvas.height c));
                result.geometricBounds :=
                  [bound.left bound; bound.top bound; bound.right bound;
                   bound.bottom bound] |})
      end
  end.

(** ** [encodeAsBase64] and [getPngDimensions] *)

(** The value of a byte and the byte of a value ([& 0xff]). *)
Definition byte_value (a : byte) : Z := Z.of_N (Byte.to_N a).

Definition byte_of (z : Z) : byte :=
  match Byte.of_N (Z.to_N (z mod 256)) with
  | Some a => a
  | None => x00
  end.

(** The base64 alphabet. *)
Definition alphabet : list ascii :=
  list_ascii_of_string
    "ABCDEFGHIJKLMNOPQRSTUVWXYZabcdefghijklmnopqrstuvwxyz0123456789+/".

Definition base64_char (n : Z) : ascii := nth (Z.to_nat n) alphabet "A"%char.

Fixpoint position (a : ascii) (l : list ascii) : option Z :=
  match l with
  | [] => None
  | b :: rest => if Ascii.eqb a b then Some 0 else Z.succ <$> position a rest
  end.

Definition base64_value (a : ascii) : option Z := position a alphabet.

(** [buffer.toString("base64")]: three bytes give four characters; one or
    two bytes left over give two or three characters and [=] padding. *)
Fixpoint toString_base64 (buffer : list byte) : list ascii :=
  match buffer with
  | [] => []
  | [a] =>
      let x := byte_value a in
      [base64_char (x / 4); base64_char (x mod 4 * 16); "="; "="]%char
  | [a; b] =>
      let x := byte_value a in
      let y := byte_value b in
      [base64_char (x / 4); base64_char (x mod 4 * 16 + y / 16);
       base64_char (y mod 16 * 4); "="]%char
  | a :: b :: c :: rest =>
      let x := byte_value a in
      let y := byte_value b in
      let z := byte_value c in
      [base64_char (x / 4); base64_char (x mod 4 * 16 + y / 16);
       base64_char (y mod 16 * 4 + z / 64); base64_char (z mod 64)]
      ++ toString_base64 rest
  end.

(** [atob(data)], the forgiving base64 decoder: ASCII whitespace is
    dropped, one or two [=] at the end of a text whose length is a multiple
    of four are dropped, a length of [4n + 1] or a character outside the
    alphabet is an error ([None]); each character then gives six bits, and
    the four or two bits left over at the end are discarded. *)
Definition is_whitespace (a : ascii) : bool :=
  Ascii.eqb a "009" || Ascii.eqb a "010" || Ascii.eqb a "012"
  || Ascii.eqb a "013" || Ascii.eqb a " ".

Definition strip_padding (data : list ascii) : list ascii :=
  if Nat.eqb (length data mod 4) 0 then
    match rev data with
    | a :: b :: rest =>
        if Ascii.eqb a "=" then
          if Ascii.eqb b "=" then rev rest else rev (b :: rest)
        else data
    | [a] => if Ascii.eqb a "=" then [] else data
    | [] => data
    end
  else data.

Fixpoint from_sextets (s : list Z) : list byte :=
  match s with
  | s1 :: s2 :: s3 :: s4 :: rest =>
      [byte_of (s1 * 4 + s2 / 16); byte_of (s2 mod 16 * 16 + s3 / 4);
       byte_of (s3 mod 4 * 64 + s4)] ++ from_sextets rest
  | [s1; s2; s3] =>
      [byte_of (s1 * 4 + s2 / 16); byte_of (s2 mod 16 * 16 + s3 / 4)]
  | [s1; s2] => [byte_of (s1 * 4 + s2 / 16)]
  | _ => []
  end.

Definition atob (data : list ascii) : option (list byte) :=
  let data := List.filter (fun a => negb (is_whitespace a)) data in
  let data := strip_padding data in
  if Nat.eqb (length data mod 4) 1 then None
  else from_sextets <$> mapM base64_value data.

(** [dataView.getInt32(byteOffset)]: four bytes, big-endian, as a signed
    32-bit integer; [None] is the [RangeError] for an offset whose four
    bytes do not lie in the buffer. *)
Definition getInt32 (buffer : list byte) (byteOffset : nat) : option Z :=
  match take 4 (drop byteOffset buffer) with
  | [b0; b1; b2; b3] =>
      Some (wrap32
              (((byte_value b0 * 256 + byte_value b1) * 256 + byte_value b2)
                 * 256 + byte_value b3))
  | _ => None
  end.

(** [getPngDimensions(base64)]: the bytes 16 to 23 of what the first 50
    characters decode to, read as two integers. *)
Definition getPngDimensions (base64 : list ascii) : thrown + Z * Z :=
  match atob (take 50 base64) with
  | None => inl InvalidCharacterError
  | Some decoded =>
      let header := take 8 (drop 16 decoded) in
      match getInt32 header 0 with
      | None => inl RangeError
      | Some width =>
          match getInt32 header 4 with
          | None => inl RangeError
          | Some height => inr (width, height)
          end
      end
  end.

(** [canvas.width = v] and [canvas.height = v] for an integer [v].  The
    attribute is an unsigned long, so [v] is taken modulo [2^32]; it keeps
    a value up to [2^31 - 1] and takes its default, [300] for the width and
    [150] for the height, for any other. *)
Definition set_dimension (default v : Z) : Z :=
  let u := v mod 2 ^ 32 in
  if u <? 2 ^ 31 then u else default.

(** ** Images used in the examples *)

(** A [w] by [h] canvas whose pixel at column [x], row [y] has alpha
    [alpha x y] (and black colour samples). *)
Definition pixel_bytes (a : byte) : list byte := [x00; x00; x00; a].

Definition paint (w h : nat) (alpha : nat -> nat -> byte) : canvas.t :=
  canvas.mk (Z.of_nat w) (Z.of_nat h)
    (flat_map (fun k => pixel_bytes (alpha (k mod w)%nat (k / w)%nat))
       (seq 0 (h * w))).

Definition opaque_square (x0 y0 side : nat) (x y : nat) : byte :=
  if ((x0 <=? x) && (x <? x0 + side) && (y0 <=? y) && (y <? y0 + side))%nat
  then xff else x00.

(** * The batch: [trim] and [trimItem] *)

Local Close Scope Z_scope.

(** The file system as [trim] reads it.  A path names a folder, with the
    names [fs.readdir] lists, or a file, given by its bytes and by the
    pixel data the browser decodes from them: what [drawImage] paints on
    the canvas and [getImageData] reads back (the decoder is not
    interpreted). *)
Inductive node : Type :=
| File (bytes : list byte) (pixels : list byte)
| Folder (entries : list string).

Definition files : Type := gmap string node.

(** [exists(targetPath)] *)
Definition exists_ (f : files) (targetPath : string) : bool :=
  match f !! targetPath with
  | Some _ => true
  | None => false
  end.

(** [isFolder(targetPath)]; [trim] asks only about paths that exist. *)
Definition isFolder (f : files) (targetPath : string) : bool :=
  match f !! targetPath with
  | Some (Folder _) => true
  | _ => false
  end.

(** [readDir(targetPath)]: each entry as [`${targetPath}/${item}`]. *)
Definition readDir (f : files) (targetPath : string) : list string :=
  match f !! targetPath with
  | Some (Folder entries) =>
      map (fun item => (targetPath ++ "/" ++ item)%string) entries
  | _ => []
  end.

(** What a promise of [trimItem] is rejected with: the error of reading
    the file, or what [getPngDimensions] threw. *)
Inductive error : Type :=
| ReadError (filepath : string)
| Thrown (e : thrown).

(** [fs.readFileSync(filepath)] throws unless [filepath] is a file. *)
Definition readFileSync (f : files) (filepath : string) : error + list byte :=
  match f !! filepath with
  | Some (File bytes _) => inr bytes
  | _ => inl (ReadError filepath)
  end.

(** [encodeAsBase64(filepath)] *)
Definition encodeAsBase64 (f : files) (filepath : string) :
    error + list ascii :=
  match readFileSync f filepath with
  | inl e => inl e
  | inr buffer => inr (toString_base64 buffer)
  end.

(** The pixel data on the canvas once the image of [targFile] has been
    drawn. *)
Definition drawImage (f : files) (targFile : string) : list byte :=
  match f !! targFile with
  | Some (File _ pixels) => pixels
  | _ => []
  end.

(** The first argument of [trim]: a single path or an array of paths. *)
Inductive input : Type :=
| One (item : string)
| Many (items : list string).

(** The list of PNG paths [trim] works on: the input as an array, without
    the paths that do not exist, folders replaced by their entries (one
    level), and only the names that end in [.png]. *)
Definition candidates (f : files) (paths : input) : list string :=
  let paths := match paths with One item => [item] | Many items => items end in
  let paths := List.filter (exists_ f) paths in
  let paths :=
    map (fun item => if isFolder f item then readDir f item else [item]) paths in
  List.filter ends_with_png (concat paths).

(** [padding = +padding], with the default [0] of the parameter. *)
Definition coerce_padding (padding : val) : val :=
  match padding with
  | Undefined => Num (Int 0)
  | _ => Num (ToNumber padding)
  end.

(** The state of a promise. *)
Inductive promise (A : Type) : Type :=
| Pending
| Fulfilled (a : A)
| Rejected (e : error).

Arguments Pending {A}.
Arguments Fulfilled {A} a.
Arguments Rejected {A} e.

(** [trimItem(targFile, padding)] up to the point where it returns its
    promise.  An exception in the executor, from reading the file or from
    [getPngDimensions], is caught and rejects the promise; otherwise the
    canvas has the size read from the file, the image is loading, and
    [img.onload] will later draw it and run [trimCanvas]. *)
Inductive item : Type :=
| Rejecting (e : error)
| Loading (targFile : string) (c : canvas.t).

Definition trimItem (f : files) (targFile : string) : item :=
  match encodeAsBase64 f targFile with
  | inl e => Rejecting e
  | inr base64 =>
      match getPngDimensions base64 with
      | inl e => Rejecting (Thrown e)
      | inr (width, height) =>
          Loading targFile
            (canvas.mk (set_dimension 300 width) (set_dimension 150 height)
               (drawImage f targFile))
      end
  end.

(** [Promise.all]: the values collected so far, the number of promises
    still awaited and the state of the promise it returned. *)
Module all.
Record t : Type := mk {
  values : list (option result.t);
  remaining : nat;
  settled : promise (list result.t)
}.
End all.

Definition all_init (n : nat) : all.t :=
  all.mk (replicate n None) n Pending.

(** Promise [i] fulfils with [v]. *)
Definition all_fulfil (i : nat) (v : result.t) (s : all.t) : all.t :=
  let values := <[i := Some v]> (all.values s) in
  let remaining := pred (all.remaining s) in
  all.mk values remaining
    match all.settled s with
    | Pending =>
        if Nat.eqb remaining 0 then Fulfilled (omap id values) else Pending
    | settled => settled
    end.

(** One of the promises rejects with [e]. *)
Definition all_reject (e : error) (s : all.t) : all.t :=
  all.mk (all.values s) (all.remaining s)
    match all.settled s with
    | Pending => Rejected e
    | settled => settled
    end.

(** The promises that were rejected when [trimItem] returned them settle
    [Promise.all] first, in the order of the array. *)
Definition reject_all (items : list item) (s : all.t) : all.t :=
  fold_left
    (fun s it =>
       match it with Rejecting e => all_reject e s | Loading _ _ => s end)
    items s.

(** What the program has changed and printed. *)
Module world.
Record t : Type := mk { written : disk; console : list string }.
End world.

(** The load event of image [i]: [img.onload] trims the canvas, rewrites
    the file and resolves promise [i].  An exception of [trimCanvas] is
    thrown out of the event handler, beyond the [try] of [trimItem]:
    nobody catches it, and promise [i] is neither resolved nor rejected. *)
Definition onload (items : list item) (padding : val) (st : disk * all.t)
    (i : nat) : disk * all.t :=
  match items !! i with
  | Some (Loading targFile c) =>
      match trimCanvas c targFile padding (fst st) with
      | inr (d, result) => (d, all_fulfil i result (snd st))
      | inl _ => st
      end
  | _ => st
  end.

Definition not_a_number : string :=
  "Padding of NaN [number] is not typeof Number".

(** [trim(list, padding)].  [loads] is the order in which the load events
    of the images arrive; the result is the world afterwards and the state
    of the promise [trim] returned. *)
Definition trim (f : files) (paths : input) (padding : val)
    (loads : list nat) : world.t * promise (list result.t) :=
  let padding := coerce_padding padding in
  let console := if isNaN padding then [not_a_number] else [] in
  let paths := candidates f paths in
  if Nat.eqb (length paths) 0 then (world.mk [] console, Fulfilled [])
  else
    let items := trimItem f <$> paths in
    let started := reject_all items (all_init (length items)) in
    let '(d, s) := fold_left (onload items padding) loads ([], started) in
    (world.mk d console, all.settled s).

(** * Specification *)

Local Open Scope Z_scope.

(** ** The scan *)

(** A canvas as [trimItem] hands it to [trimCanvas]: positive dimensions
    (read by [getPngDimensions] as signed 32-bit integers) and four bytes
    of image data per pixel. *)
Record canvas_ok (c : canvas.t) : Prop := {
  ok_width : 0 < canvas.width c < 2 ^ 31;
  ok_height : 0 < canvas.height c < 2 ^ 31;
  ok_length :
    Z.of_nat (length (canvas.data c)) = 4 * (canvas.width c * canvas.height c)
}.

(** The alpha sample of the pixel at column [x], row [y]. *)
Definition alpha (c : canvas.t) (x y : Z) : option byte :=
  canvas.data c !! Z.to_nat (4 * (y * canvas.width c + x) + 3).

(** The pixel at column [x], row [y] lies on the canvas and is not fully
    transparent. *)
Definition relevant (c : canvas.t) (x y : Z) : bool :=
  (0 <=? x) && (x <? canvas.width c) && (0 <=? y) && (y <? canvas.height c)
  && match alpha c x y with
     | Some a => negb (Byte.eqb a x00)
     | None => false
     end.

(** Pixel number [j] (row-major) is not fully transparent. *)
Definition rel (c : canvas.t) (j : Z) : bool :=
  alpha_nonzero (canvas.data c) (4 * j).
Definition col (c : canvas.t) (j : Z) : Z := j mod canvas.width c.
Definition row (c : canvas.t) (j : Z) : Z := j / canvas.width c.

(** Among the first [k] pixels, [j] is one the scan reacts to. *)
Definition seen (c : canvas.t) (k j : Z) : Prop :=
  0 <= j < k /\ rel c j = true.

Definition least (c : canvas.t) (k : Z) (f : Z -> Z) (m : Z) : Prop :=
  (exists j, seen c k j /\ f j = m) /\ forall j, seen c k j -> m <= f j.

Definition greatest (c : canvas.t) (k : Z) (f : Z -> Z) (m : Z) : Prop :=
  (exists j, seen c k j /\ f j = m) /\ forall j, seen c k j -> f j <= m.

(** The loop invariant after [k] pixels. *)
Inductive scanned (c : canvas.t) (k : Z) : bound.t -> Prop :=
| scanned_none :
    (forall j, 0 <= j < k -> rel c j = false) ->
    scanned c k initial_bound
| scanned_some t l r b :
    least c k (row c) t -> least c k (col c) l ->
    greatest c k (col c) r -> greatest c k (row c) b ->
    scanned c k
      (bound.mk (Num (Int t)) (Num (Int l)) (Num (Int r)) (Num (Int b))).

(** The four extrema of the pixels that are not fully transparent. *)
Definition topmost (c : canvas.t) (t : Z) : Prop :=
  (exists x, relevant c x t = true) /\
  forall x y, relevant c x y = true -> t <= y.

Definition leftmost (c : canvas.t) (l : Z) : Prop :=
  (exists y, relevant c l y = true) /\
  forall x y, relevant c x y = true -> l <= x.

Definition rightmost (c : canvas.t) (r : Z) : Prop :=
  (exists y, relevant c r y = true) /\
  forall x y, relevant c x y = true -> x <= r.

Definition bottommost (c : canvas.t) (b : Z) : Prop :=
  (exists x, relevant c x b = true) /\
  forall x y, relevant c x y = true -> y <= b.

(** ** Padding and clamping *)

(** The padded and clamped box of [trimCanvas], as a function of the
    scanned box. *)
Definition apply_padding (c : canvas.t) (padding : val) (b : bound.t) :
    bound.t :=
  clamp_bound c (add_padding padding b).

Definition clamp_to (max v : Z) : Z := Z.max 0 (Z.min v max).

(** A non-empty box of the canvas [c]. *)
Definition box_on (c : canvas.t) (t l r b : Z) : Prop :=
  (0 <= l /\ l <= r /\ r < canvas.width c) /\
  (0 <= t /\ t <= b /\ b < canvas.height c).


(** The image of the end-to-end example: 1000 by 1000 pixels, transparent
    but for a fully opaque 100 by 100 square whose corner is at (50, 50). *)
Definition example_square : canvas.t :=
  paint 1000 1000 (opaque_square 50 50 100).

(** ** What [trimCanvas] writes, returns and throws *)

(** The file [trimCanvas] writes and the record it returns, when it
    returns, do not depend on what was written before. *)
Definition crop_write (c : canvas.t) (filepath : string) (padding : val) :
    write.t :=
  let bound := crop_bound c padding in
  write.mk filepath c (bound.left bound) (bound.top bound)
    (minus (bound.right bound) (bound.left bound))
    (minus (bound.bottom bound) (bound.top bound)).

Definition crop_result (c : canvas.t) (filepath : string) (padding : val) :
    result.t :=
  let bound := crop_bound c padding in
  {| result.name := strip_png (last_segment filepath);
     result.fullName := last_segment filepath;
     result.path := filepath;
     result.left := bound.left bound;
     result.top := bound.top bound;
     result.right := minus (Num (Int (canvas.width c))) (bound.right bound);
     result.bottom := minus (Num (Int (canvas.height c))) (bound.bottom bound);
     result.width := minus (bound.right bound) (bound.left bound);
     result.height := minus (bound.bottom bound) (bound.top bound);
     result.naturalWidth := Num (Int (canvas.width c));
     result.naturalHeight := Num (Int (canvas.height c));
     result.geometricBounds :=
       [bound.left bound; bound.top bound; bound.right bound;
        bound.bottom bound] |}.

(** What [trimCanvas] throws, if it throws. *)
Definition crop_error (c : canvas.t) (padding : val) : option thrown :=
  match
    getImageData (Num (Int 0)) (Num (Int 0)) (Num (Int (canvas.width c)))
      (Num (Int (canvas.height c)))
  with
  | inl e => Some e
  | inr _ =>
      let bound := crop_bound c padding in
      match
        getImageData (bound.left bound) (bound.top bound)
          (minus (bound.right bound) (bound.left bound))
          (minus (bound.bottom bound) (bound.top bound))
      with
      | inl e => Some e
      | inr _ => None
      end
  end.

(** ** Small images and a small file system *)

(** Four by three pixels with an opaque two by two square at (1, 1). *)
Definition small_square : canvas.t := paint 4 3 (opaque_square 1 1 2).

(** Two by two pixels, all opaque. *)
Definition small_opaque : canvas.t := paint 2 2 (fun _ _ => xff).

(** Two by two pixels, all transparent. *)
Definition small_transparent : canvas.t := paint 2 2 (fun _ _ => x00).

(** One pixel, opaque. *)
Definition one_pixel : canvas.t := paint 1 1 (fun _ _ => xff).

(** Twenty by twenty pixels, opaque but for a margin of three pixels on
    the left and at the top. *)
Definition margin_square : canvas.t := paint 20 20 (opaque_square 3 3 17).

(** Seven by seven pixels with an opaque three by three square in the
    corner at the origin. *)
Definition corner_square : canvas.t := paint 7 7 (opaque_square 0 0 3).

(** The doubles nearest to [0.01] and to [0.1]. *)
Definition one_hundredth : float := 0x1.47ae147ae147bp-7.
Definition one_tenth : float := 0x1.999999999999ap-4.

(** The four bytes of a signed 32-bit integer, most significant first. *)
Definition int32_bytes (z : Z) : list byte :=
  [byte_of (z / 16777216); byte_of (z / 65536); byte_of (z / 256); byte_of z].

(** The start of a PNG file: signature, length and type of the header
    chunk, then the width and the height. *)
Definition png_start (width height : Z) : list byte :=
  [x89; x50; x4e; x47; x0d; x0a; x1a; x0a; x00; x00; x00; x0d; x49; x48;
   x44; x52]
  ++ int32_bytes width ++ int32_bytes height.

(** A file that starts like a PNG file of the size of [c] and decodes to
    the pixels of [c]. *)
Definition png_file (c : canvas.t) : node :=
  File (png_start (canvas.width c) (canvas.height c)) (canvas.data c).

(** A folder [/d] that holds the image [a.png] and a folder that is itself
    called [b.png], next to the images [/e.png] and [/t.png], the second
    fully transparent, and the file [/s.png] of four bytes. *)
Definition example_files : files :=
  {[ "/d" := Folder ["a.png"; "b.png"];
     "/d/a.png" := png_file small_opaque;
     "/d/b.png" := Folder [];
     "/e.png" := png_file small_square;
     "/t.png" := png_file small_transparent;
     "/s.png" := File [x89; x50; x4e; x47] [] ]}.

Local Close Scope Z_scope.

(** ** What the load events leave behind *)

Definition item_result (padding : val) (it : item) : option result.t :=
  match it with
  | Loading targFile c =>
      match crop_error c padding with
      | None => Some (crop_result c targFile padding)
      | Some _ => None
      end
  | Rejecting _ => None
  end.

Definition item_write (padding : val) (it : item) : option write.t :=
  match it with
  | Loading targFile c =>
      match crop_error c padding with
      | None => Some (crop_write c targFile padding)
      | Some _ => None
      end
  | Rejecting _ => None
  end.

Definition result_at (items : list item) (padding : val) (j : nat) :
    option result.t :=
  items !! j ≫= item_result padding.

Definition write_at (items : list item) (padding : val) (j : nat) :
    option write.t :=
  items !! j ≫= item_write padding.

Definition is_loading (items : list item) (j : nat) : Prop :=
  exists targFile c, items !! j = Some (Loading targFile c).

(** The error of the first promise that [trimItem] returned rejected. *)
Fixpoint first_error (items : list item) : option error :=
  match items with
  | [] => None
  | Rejecting e :: _ => Some e
  | Loading _ _ :: rest => first_error rest
  end.

(** The state after the load events [done], none of them twice: promise
    [j] holds its record once its load event has arrived, unless the
    handler threw. *)
Record tracks (items : list item) (padding : val) (done : list nat)
    (st : disk * all.t) : Prop := {
  tr_length : length (all.values (snd st)) = length items;
  tr_values : forall j, j < length items ->
    all.values (snd st) !! j =
      Some (if decide (j ∈ done) then result_at items padding j else None);
  tr_remaining :
    all.remaining (snd st) + length (omap (result_at items padding) done) =
      length items;
  tr_disk : fst st = omap (write_at items padding) done;
  tr_settled :
    all.settled (snd st) =
      match first_error items with
      | Some e => Rejected e
      | None =>
          if decide (length (omap (result_at items padding) done)
                       < length items)
          then Pending
          else Fulfilled (omap id (all.values (snd st)))
      end
}.


(** The state [trim] ends in, when there is something to trim. *)
Definition final_state (f : files) (paths : input) (padding : val)
    (loads : list nat) : disk * all.t :=
  let items := trimItem f <$> candidates f paths in
  fold_left (onload items (coerce_padding padding)) loads
    ([], reject_all items (all_init (length items))).

(** * Vocabulary of the further properties *)

(** A bound that is [null], [undefined] or [NaN]. *)
Definition missing (v : val) : Prop :=
  v = Null \/ v = Undefined \/ v = Num NaN.

(** The canvas [c] with every colour sample set to [rgb]; the alpha
    samples stay. *)
Definition repaint (rgb : byte) (c : canvas.t) : canvas.t :=
  canvas.mk (canvas.width c) (canvas.height c)
    (imap (fun i a => if Nat.eqb (i mod 4) 3 then a else rgb) (canvas.data c)).

(** The first argument of [trim] as an array. *)
Definition as_array (paths : input) : list string :=
  match paths with
  | One item => [item]
  | Many items => items
  end.

(** The six-bit groups of a buffer, and the padding its base64 text ends
    with. *)
Fixpoint to_sextets (buffer : list byte) : list Z :=
  match buffer with
  | [] => []
  | [a] =>
      let x := byte_value a in
      [x / 4; x mod 4 * 16]%Z
  | [a; b] =>
      let x := byte_value a in
      let y := byte_value b in
      [x / 4; x mod 4 * 16 + y / 16; y mod 16 * 4]%Z
  | a :: b :: c :: rest =>
      let x := byte_value a in
      let y := byte_value b in
      let z := byte_value c in
      [x / 4; x mod 4 * 16 + y / 16; y mod 16 * 4 + z / 64; z mod 64]%Z
      ++ to_sextets rest
  end.

Fixpoint padding (buffer : list byte) : list ascii :=
  match buffer with
  | [] => []
  | [a] => ["="; "="]%char
  | [a; b] => ["="]%char
  | _ :: _ :: _ :: rest => padding rest
  end.

Definition sextet (s : Z) : Prop := (0 <= s < 64)%Z.

(** Character [n] of the alphabet has the value [n], is not whitespace and
    is not the padding character. *)
Definition alphabet_ok (n : nat) : bool :=
  let a := base64_char (Z.of_nat n) in
  match base64_value a with
  | Some m => (m =? Z.of_nat n)%Z
  | None => false
  end
  && negb (is_whitespace a) && negb (Ascii.eqb a "=").

(** * Proofs *)

Local Open Scope Z_scope.

(** ** The scan finds the four extrema *)

Lemma wrap32_small z : 0 <= z < 2 ^ 31 -> wrap32 z = z.
Proof.
  intros Hz. unfold wrap32.
  rewrite Z.mod_small; lia.
Qed.

Section Scan.

Variable c : canvas.t.
Hypothesis Hok : canvas_ok c.

Let W := canvas.width c.
Let H := canvas.height c.

Lemma W_pos : 0 < W < 2 ^ 31.
Proof using Hok. apply Hok. Qed.

Lemma H_pos : 0 < H < 2 ^ 31.
Proof using Hok. apply Hok. Qed.

Lemma row_lt j : 0 <= j < W * H -> 0 <= row c j < H.
Proof using Hok.
  intros Hj. pose proof W_pos. unfold row. fold W. split.
  - apply Z.div_pos; lia.
  - apply Z.div_lt_upper_bound; lia.
Qed.

Lemma col_lt j : 0 <= col c j < W.
Proof using Hok.
  pose proof W_pos. unfold col. fold W. apply Z.mod_pos_bound. lia.
Qed.

Lemma row_mono j k : 0 <= j <= k -> row c j <= row c k.
Proof using Hok.
  intros Hjk. pose proof W_pos. unfold row. fold W.
  apply Z.div_le_mono; lia.
Qed.

Lemma pixel_x_at k : 0 <= k -> pixel_x c (4 * k) = Int (col c k).
Proof using Hok.
  intros Hk. pose proof W_pos as HW. unfold pixel_x, rem, col. fold W.
  replace (Z.quot (4 * k) 4) with k
    by (rewrite Z.mul_comm, Z.quot_mul; lia).
  destruct (Z.eqb_spec W 0); [lia|].
  rewrite Z.rem_mod_nonneg; [reflexivity | lia | lia].
Qed.

Lemma pixel_y_at k : 0 <= k < W * H -> pixel_y c (4 * k) = Int (row c k).
Proof using Hok.
  intros Hk. pose proof W_pos as HW. pose proof H_pos as HH.
  pose proof (row_lt k Hk) as Hr.
  unfold pixel_y, trunc_div. fold W.
  replace (Z.quot (4 * k) 4) with k
    by (rewrite Z.mul_comm, Z.quot_mul; lia).
  destruct (Z.eqb_spec W 0); [lia|].
  rewrite Z.quot_div_nonneg by lia.
  change (k / W) with (row c k). rewrite wrap32_small by lia. reflexivity.
Qed.

(** How [seen] grows with one more pixel. *)
Lemma seen_succ k j : seen c (k + 1) j -> seen c k j \/ (j = k /\ rel c k = true).
Proof.
  intros [Hj Hr]. destruct (Z.eq_dec j k) as [->|Hne]; [right; auto|].
  left. split; [lia | assumption].
Qed.

Lemma seen_weaken k j : seen c k j -> seen c (k + 1) j.
Proof. intros [Hj Hr]. split; [lia | assumption]. Qed.

Lemma seen_last k : 0 <= k -> rel c k = true -> seen c (k + 1) k.
Proof. intros Hk Hr. split; [lia | assumption]. Qed.

Lemma seen_skip k j : rel c k = false -> seen c (k + 1) j -> seen c k j.
Proof.
  intros Hr Hs. destruct (seen_succ k j Hs) as [?|[-> Hr']]; [assumption|].
  congruence.
Qed.

Lemma seen_none k j :
  (forall i, 0 <= i < k -> rel c i = false) -> seen c k j -> False.
Proof. intros Hn [Hj Hr]. rewrite (Hn j Hj) in Hr. discriminate. Qed.

Ltac only_the_last k :=
  intros Hk Hn Hr; split; [eauto using seen_last|];
  intros j Hs; destruct (seen_succ k j Hs) as [Hs'|[-> _]];
  [exfalso; eapply seen_none; eauto | lia].

Lemma least_first k f :
  0 <= k -> (forall i, 0 <= i < k -> rel c i = false) -> rel c k = true ->
  least c (k + 1) f (f k).
Proof. only_the_last k. Qed.

Lemma greatest_first k f :
  0 <= k -> (forall i, 0 <= i < k -> rel c i = false) -> rel c k = true ->
  greatest c (k + 1) f (f k).
Proof. only_the_last k. Qed.

Lemma least_skip k f m : rel c k = false -> least c k f m -> least c (k + 1) f m.
Proof.
  intros Hr [[j [Hj Hm]] Hall]. split; [eauto using seen_weaken|].
  intros i Hi. apply Hall. eapply seen_skip; eassumption.
Qed.

Lemma greatest_skip k f m :
  rel c k = false -> greatest c k f m -> greatest c (k + 1) f m.
Proof.
  intros Hr [[j [Hj Hm]] Hall]. split; [eauto using seen_weaken|].
  intros i Hi. apply Hall. eapply seen_skip; eassumption.
Qed.

Lemma least_keep k f m : m <= f k -> least c k f m -> least c (k + 1) f m.
Proof.
  intros Hle [[j [Hj Hm]] Hall]. split; [eauto using seen_weaken|].
  intros i Hi. destruct (seen_succ k i Hi) as [Hs|[-> _]]; auto.
Qed.

Lemma greatest_keep k f m :
  f k <= m -> greatest c k f m -> greatest c (k + 1) f m.
Proof.
  intros Hle [[j [Hj Hm]] Hall]. split; [eauto using seen_weaken|].
  intros i Hi. destruct (seen_succ k i Hi) as [Hs|[-> _]]; auto.
Qed.

Lemma least_lower k f m :
  0 <= k -> rel c k = true -> f k <= m -> least c k f m -> least c (k + 1) f (f k).
Proof.
  intros Hk Hr Hle [_ Hall]. split; [eauto using seen_last|].
  intros i Hi. destruct (seen_succ k i Hi) as [Hs|[-> _]]; [|lia].
  specialize (Hall i Hs). lia.
Qed.

Lemma greatest_raise k f m :
  0 <= k -> rel c k = true -> m <= f k -> greatest c k f m ->
  greatest c (k + 1) f (f k).
Proof.
  intros Hk Hr Hle [_ Hall]. split; [eauto using seen_last|].
  intros i Hi. destruct (seen_succ k i Hi) as [Hs|[-> _]]; [|lia].
  specialize (Hall i Hs). lia.
Qed.

Lemma least_bound k f m : least c k f m -> exists j, 0 <= j < k /\ f j = m.
Proof. intros [[j [[Hj _] Hm]] _]. eauto. Qed.

(** The loop body at pixel [k]. *)
Lemma scan_body_at k b :
  0 <= k < W * H ->
  scan_body c b (4 * k) =
    if rel c k then
      {| bound.top :=
           if strict_eq (bound.top b) Null then Num (Int (row c k))
           else bound.top b;
         bound.left :=
           if strict_eq (bound.left b) Null
              || less (Num (Int (col c k))) (bound.left b)
           then Num (Int (col c k)) else bound.left b;
         bound.right :=
           if strict_eq (bound.right b) Null
              || less (bound.right b) (Num (Int (col c k)))
           then Num (Int (col c k)) else bound.right b;
         bound.bottom :=
           if strict_eq (bound.bottom b) Null
              || less (bound.bottom b) (Num (Int (row c k)))
           then Num (Int (row c k)) else bound.bottom b |}
    else b.
Proof using Hok.
  intros Hk. unfold scan_body. fold (rel c k).
  rewrite pixel_x_at by lia. rewrite pixel_y_at by lia. reflexivity.
Qed.

Lemma scanned_step k b :
  0 <= k < W * H -> scanned c k b -> scanned c (k + 1) (scan_body c b (4 * k)).
Proof using Hok.
  intros Hk Hinv. rewrite scan_body_at by assumption.
  destruct (rel c k) eqn:Hr.
  - destruct Hinv as [Hnone | t l r b Ht Hl Hrt Hb].
    + cbn. apply scanned_some;
        first [apply least_first | apply greatest_first]; auto; lia.
    + cbn.
      assert (Htop : least c (k + 1) (row c) t).
      { apply least_keep; [|assumption].
        destruct (least_bound _ _ _ Ht) as [j [Hj <-]].
        apply row_mono. lia. }
      destruct (Z.ltb_spec (col c k) l), (Z.ltb_spec r (col c k)),
        (Z.ltb_spec b (row c k));
        apply scanned_some;
        first [ assumption
              | apply (least_lower k (col c) l); auto; lia
              | apply (greatest_raise k (col c) r); auto; lia
              | apply (greatest_raise k (row c) b); auto; lia
              | apply least_keep; auto; lia
              | apply greatest_keep; auto; lia ].
  - destruct Hinv as [Hnone | t l r b Ht Hl Hrt Hb].
    + apply scanned_none. intros j Hj.
      destruct (Z.eq_dec j k) as [->|]; [assumption|]. apply Hnone. lia.
    + apply scanned_some; auto using least_skip, greatest_skip.
Qed.

(** Turns the loop does not need change nothing: the fuel of [scan] is
    enough for any array. *)
Lemma scan_loop_enough_fuel fuel : forall extra l i b,
  l - i <= 4 * Z.of_nat fuel ->
  scan_loop (fuel + extra) c l i b = scan_loop fuel c l i b.
Proof.
  induction fuel as [|fuel IH]; intros extra l i b Hfuel.
  - destruct extra as [|extra]; [reflexivity|].
    cbn [Nat.add scan_loop]. destruct (Z.ltb_spec i l); [lia | reflexivity].
  - cbn [Nat.add scan_loop]. destruct (Z.ltb_spec i l); [|reflexivity].
    apply IH. lia.
Qed.

(** The loop from pixel [k] on, with enough turns left, reaches the end
    of the data with the invariant for all [W * H] pixels. *)
Lemma scan_loop_scanned fuel : forall k b,
  0 <= k <= W * H -> W * H - k <= Z.of_nat fuel -> scanned c k b ->
  scanned c (W * H) (scan_loop fuel c (4 * (W * H)) (4 * k) b).
Proof using Hok.
  induction fuel as [|fuel IH]; intros k b Hk Hfuel Hinv.
  - replace (W * H) with k by lia. exact Hinv.
  - cbn [scan_loop]. destruct (Z.ltb_spec (4 * k) (4 * (W * H))).
    + replace (4 * k + 4) with (4 * (k + 1)) by lia.
      apply IH; [lia | lia |]. apply scanned_step; [lia | assumption].
    + replace (W * H) with k by lia. exact Hinv.
Qed.

Lemma scan_scanned : scanned c (W * H) (scan c).
Proof using Hok.
  pose proof (ok_length c Hok) as Hlen. fold W H in Hlen.
  pose proof W_pos. pose proof H_pos.
  unfold scan. rewrite Hlen.
  apply (scan_loop_scanned (length (canvas.data c)) 0 initial_bound);
    [nia | nia |].
  apply scanned_none. intros j Hj. lia.
Qed.

(** Pixel numbers and coordinates. *)
Lemma relevant_seen x y :
  relevant c x y = true ->
  seen c (W * H) (y * W + x) /\ col c (y * W + x) = x /\ row c (y * W + x) = y.
Proof using Hok.
  unfold relevant, alpha. fold W H. intros Hrel.
  repeat (apply andb_prop in Hrel; destruct Hrel as [Hrel ?]).
  assert (0 <= x < W /\ 0 <= y < H) as [Hx Hy] by lia.
  split; [split|split].
  - nia.
  - unfold rel, alpha_nonzero.
    destruct (canvas.data c !! Z.to_nat (4 * (y * W + x) + 3));
      [assumption | reflexivity].
  - unfold col. fold W. symmetry. apply (Z.mod_unique_pos _ _ y); lia.
  - unfold row. fold W. symmetry. apply (Z.div_unique_pos _ _ _ x); lia.
Qed.

Lemma seen_relevant j :
  seen c (W * H) j -> relevant c (col c j) (row c j) = true.
Proof using Hok.
  intros [Hj Hrel]. pose proof W_pos as HW.
  pose proof (col_lt j) as Hc. pose proof (row_lt j Hj) as Hr.
  assert (Hidx : row c j * W + col c j = j).
  { unfold row, col. fold W. pose proof (Z.div_mod j W). lia. }
  unfold relevant, alpha. fold W H. rewrite Hidx.
  replace (0 <=? col c j) with true by lia.
  replace (col c j <? W) with true by lia.
  replace (0 <=? row c j) with true by lia.
  replace (row c j <? H) with true by lia.
  cbn. unfold rel, alpha_nonzero in Hrel.
  destruct (canvas.data c !! Z.to_nat (4 * j + 3)) eqn:Hlook;
    [assumption|].
  apply lookup_ge_None in Hlook.
  pose proof (ok_length c Hok) as Hlen. fold W H in Hlen. lia.
Qed.

End Scan.

Lemma least_row_topmost c t :
  canvas_ok c -> least c (canvas.width c * canvas.height c) (row c) t ->
  topmost c t.
Proof.
  intros Hok [[j [Hj <-]] Hall]. split.
  - exists (col c j). apply seen_relevant; assumption.
  - intros x y Hrel.
    destruct (relevant_seen c Hok x y Hrel) as [Hs [_ Hy]].
    rewrite <- Hy. apply Hall. exact Hs.
Qed.

Lemma least_col_leftmost c l :
  canvas_ok c -> least c (canvas.width c * canvas.height c) (col c) l ->
  leftmost c l.
Proof.
  intros Hok [[j [Hj <-]] Hall]. split.
  - exists (row c j). apply seen_relevant; assumption.
  - intros x y Hrel.
    destruct (relevant_seen c Hok x y Hrel) as [Hs [Hx _]].
    rewrite <- Hx. apply Hall. exact Hs.
Qed.

Lemma greatest_col_rightmost c r :
  canvas_ok c -> greatest c (canvas.width c * canvas.height c) (col c) r ->
  rightmost c r.
Proof.
  intros Hok [[j [Hj <-]] Hall]. split.
  - exists (row c j). apply seen_relevant; assumption.
  - intros x y Hrel.
    destruct (relevant_seen c Hok x y Hrel) as [Hs [Hx _]].
    rewrite <- Hx. apply Hall. exact Hs.
Qed.

Lemma greatest_row_bottommost c b :
  canvas_ok c -> greatest c (canvas.width c * canvas.height c) (row c) b ->
  bottommost c b.
Proof.
  intros Hok [[j [Hj <-]] Hall]. split.
  - exists (col c j). apply seen_relevant; assumption.
  - intros x y Hrel.
    destruct (relevant_seen c Hok x y Hrel) as [Hs [_ Hy]].
    rewrite <- Hy. apply Hall. exact Hs.
Qed.

(** The scan of a canvas with a pixel that is not fully transparent:
    four integers, each the extremum of its own coordinate. *)
Lemma scan_found c :
  canvas_ok c -> (exists x y, relevant c x y = true) ->
  exists t l r b : Z,
    scan c = bound.mk (Num (Int t)) (Num (Int l)) (Num (Int r)) (Num (Int b))
    /\ topmost c t /\ leftmost c l /\ rightmost c r /\ bottommost c b.
Proof.
  intros Hok [x [y Hrel]].
  destruct (scan_scanned c Hok) as [Hnone | t l r b Ht Hl Hr Hb].
  - destruct (relevant_seen c Hok x y Hrel) as [[Hj Hs] _].
    rewrite (Hnone _ Hj) in Hs. discriminate.
  - exists t, l, r, b. split; [reflexivity|].
    auto using least_row_topmost, least_col_leftmost, greatest_col_rightmost,
      greatest_row_bottommost.
Qed.

(** The scan of a fully transparent canvas leaves every bound [null]. *)
Lemma scan_transparent c :
  canvas_ok c -> (forall x y, relevant c x y = false) ->
  scan c = initial_bound.
Proof.
  intros Hok Hnone.
  destruct (scan_scanned c Hok) as [_ | t l r b [[j [Hj _]] _] _ _ _];
    [reflexivity|].
  apply (seen_relevant c Hok) in Hj. rewrite Hnone in Hj. discriminate.
Qed.

Lemma relevant_on_canvas c x y :
  relevant c x y = true ->
  0 <= x < canvas.width c /\ 0 <= y < canvas.height c.
Proof.
  unfold relevant. intros Hrel.
  repeat (apply andb_prop in Hrel; destruct Hrel as [Hrel ?]). lia.
Qed.

(** C5: on a canvas with at least one pixel whose alpha sample is not [0],
    the scan returns as [top] the least row, as [bottom] the greatest row,
    as [left] the least column and as [right] the greatest column over all
    such pixels, each extremum taken on its own, and
    [0 <= left <= right < width], [0 <= top <= bottom < height]. *)
Theorem scan_extrema c :
  canvas_ok c -> (exists x y, relevant c x y = true) ->
  exists t l r b : Z,
    scan c = bound.mk (Num (Int t)) (Num (Int l)) (Num (Int r)) (Num (Int b))
    /\ topmost c t /\ bottommost c b /\ leftmost c l /\ rightmost c r
    /\ (0 <= l /\ l <= r /\ r < canvas.width c)
    /\ (0 <= t /\ t <= b /\ b < canvas.height c).
Proof.
  intros Hok Hex.
  destruct (scan_found c Hok Hex)
    as (t & l & r & b & Hscan & Ht & Hl & Hr & Hb).
  exists t, l, r, b.
  assert (l <= r).
  { destruct Hl as [_ Hall]. destruct Hr as [[y Hy] _]. exact (Hall _ _ Hy). }
  assert (t <= b).
  { destruct Ht as [_ Hall]. destruct Hb as [[x Hx] _]. exact (Hall _ _ Hx). }
  destruct Hl as [[yl Hyl] Hl]. destruct Hr as [[yr Hyr] Hr].
  destruct Ht as [[xt Hxt] Ht]. destruct Hb as [[xb Hxb] Hb].
  pose proof (relevant_on_canvas _ _ _ Hyl).
  pose proof (relevant_on_canvas _ _ _ Hyr).
  pose proof (relevant_on_canvas _ _ _ Hxt).
  pose proof (relevant_on_canvas _ _ _ Hxb).
  unfold topmost, bottommost, leftmost, rightmost.
  repeat split; eauto; lia.
Qed.

Lemma scan_shape c :
  canvas_ok c ->
  scan c = initial_bound \/
  exists t l r b : Z,
    scan c = bound.mk (Num (Int t)) (Num (Int l)) (Num (Int r)) (Num (Int b)).
Proof.
  intros Hok. destruct (scan_scanned c Hok) as [_ | t l r b _ _ _ _]; eauto 10.
Qed.

(** ** Padding and clamping *)

(** The two [forEach] passes, key by key. *)
Lemma add_padding_fields padding b :
  add_padding padding b =
    bound.mk (minus (bound.top b) padding) (minus (bound.left b) padding)
      (plus (bound.right b) padding) (plus (bound.bottom b) padding).
Proof. destruct b. reflexivity. Qed.

Lemma clamp_bound_fields c b :
  clamp_bound c b =
    bound.mk
      (clamp (bound.top b) (Num (Int 0)) (Num (Int (canvas.height c))))
      (clamp (bound.left b) (Num (Int 0)) (Num (Int (canvas.width c))))
      (clamp (bound.right b) (Num (Int 0)) (Num (Int (canvas.width c))))
      (clamp (bound.bottom b) (Num (Int 0)) (Num (Int (canvas.height c)))).
Proof. destruct b. reflexivity. Qed.

(** On integers [clamp] is the usual clamp into [[0, max]]. *)
Lemma clamp_int (v max : Z) :
  0 <= max ->
  clamp (Num (Int v)) (Num (Int 0)) (Num (Int max)) =
    Num (Int (Z.max 0 (Z.min v max))).
Proof.
  intros Hmax. unfold clamp, isBetween, greater_eq, less_eq, less, greater.
  cbn. destruct (Z.eqb_spec max 0) as [->|Hne]; cbn.
  - destruct (Z.leb_spec 0 v), (Z.leb_spec v 0), (Z.ltb_spec v 0),
      (Z.ltb_spec 0 v); cbn; try lia; do 2 f_equal; lia.
  - destruct (Z.leb_spec 0 v), (Z.leb_spec v max), (Z.ltb_spec v 0),
      (Z.ltb_spec max v); cbn; try lia; do 2 f_equal; lia.
Qed.

Lemma crop_bound_apply c padding :
  crop_bound c padding = apply_padding c padding (scan c).
Proof. reflexivity. Qed.

Lemma apply_padding_int c (p t l r b : Z) :
  0 <= canvas.width c -> 0 <= canvas.height c ->
  apply_padding c (Num (Int p))
    (bound.mk (Num (Int t)) (Num (Int l)) (Num (Int r)) (Num (Int b))) =
  bound.mk
    (Num (Int (clamp_to (canvas.height c) (t - p))))
    (Num (Int (clamp_to (canvas.width c) (l - p))))
    (Num (Int (clamp_to (canvas.width c) (r + p))))
    (Num (Int (clamp_to (canvas.height c) (b + p)))).
Proof.
  intros HW HH. unfold apply_padding.
  rewrite add_padding_fields, clamp_bound_fields.
  unfold JS.minus, JS.plus.
  cbn [bound.top bound.left bound.right bound.bottom sub add ToNumber].
  rewrite !clamp_int by assumption. reflexivity.
Qed.

(** The same for a scan that found nothing: [null] counts as [0]. *)
Lemma apply_padding_null c (p : Z) :
  0 <= canvas.width c -> 0 <= canvas.height c ->
  apply_padding c (Num (Int p)) initial_bound =
  bound.mk
    (Num (Int (clamp_to (canvas.height c) (0 - p))))
    (Num (Int (clamp_to (canvas.width c) (0 - p))))
    (Num (Int (clamp_to (canvas.width c) (0 + p))))
    (Num (Int (clamp_to (canvas.height c) (0 + p)))).
Proof.
  intros HW HH. unfold apply_padding.
  rewrite add_padding_fields, clamp_bound_fields.
  unfold initial_bound, JS.minus, JS.plus.
  cbn [bound.top bound.left bound.right bound.bottom sub add ToNumber].
  rewrite !clamp_int by assumption. reflexivity.
Qed.

(** C6: for a non-empty box, padding is subtracted from [top] and [left]
    and added to [right] and [bottom], then [left] and [right] are clamped
    into [[0, width]] and [top] and [bottom] into [[0, height]], each on its
    own; a padding of at least the image dimensions gives the full canvas
    [left = 0], [top = 0], [right = width], [bottom = height]. *)
Theorem padding_then_clamp c (p t l r b : Z) :
  box_on c t l r b ->
  let W := canvas.width c in
  let H := canvas.height c in
  let padded :=
    apply_padding c (Num (Int p))
      (bound.mk (Num (Int t)) (Num (Int l)) (Num (Int r)) (Num (Int b))) in
  padded =
    bound.mk (Num (Int (Z.max 0 (Z.min (t - p) H))))
      (Num (Int (Z.max 0 (Z.min (l - p) W))))
      (Num (Int (Z.max 0 (Z.min (r + p) W))))
      (Num (Int (Z.max 0 (Z.min (b + p) H))))
  /\ (exists t' l' r' b' : Z,
        padded =
          bound.mk (Num (Int t')) (Num (Int l')) (Num (Int r')) (Num (Int b'))
        /\ 0 <= l' <= W /\ 0 <= r' <= W /\ 0 <= t' <= H /\ 0 <= b' <= H)
  /\ (W <= p -> H <= p ->
      padded =
        bound.mk (Num (Int 0)) (Num (Int 0)) (Num (Int W)) (Num (Int H))).
Proof.
  intros [Hx Hy] W H padded.
  assert (Heq : padded =
    bound.mk (Num (Int (Z.max 0 (Z.min (t - p) H))))
      (Num (Int (Z.max 0 (Z.min (l - p) W))))
      (Num (Int (Z.max 0 (Z.min (r + p) W))))
      (Num (Int (Z.max 0 (Z.min (b + p) H))))).
  { subst padded. rewrite apply_padding_int by (subst W H; lia). reflexivity. }
  split; [exact Heq|]. split.
  - eexists _, _, _, _. split; [exact Heq|]. subst W H. lia.
  - intros HWp HHp. rewrite Heq. subst W H.
    repeat f_equal; lia.
Qed.


(** ** The two calls of [getImageData] *)

Lemma enforce_range_int (z : Z) :
  - 2 ^ 31 <= z < 2 ^ 31 -> enforce_range (Num (Int z)) = inr z.
Proof.
  intros Hz. unfold enforce_range. cbn [ToNumber].
  destruct (Z.leb_spec (- 2 ^ 31) z), (Z.ltb_spec z (2 ^ 31)); try lia.
  reflexivity.
Qed.

Lemma getImageData_int (x y w h : Z) :
  - 2 ^ 31 <= x < 2 ^ 31 -> - 2 ^ 31 <= y < 2 ^ 31 ->
  - 2 ^ 31 <= w < 2 ^ 31 -> - 2 ^ 31 <= h < 2 ^ 31 ->
  getImageData (Num (Int x)) (Num (Int y)) (Num (Int w)) (Num (Int h)) =
    if (w =? 0) || (h =? 0) then inl IndexSizeError else inr tt.
Proof.
  intros Hx Hy Hw Hh. unfold getImageData.
  rewrite !enforce_range_int by assumption. reflexivity.
Qed.

(** The first call reads the whole canvas. *)
Lemma getImageData_canvas c :
  canvas_ok c ->
  getImageData (Num (Int 0)) (Num (Int 0)) (Num (Int (canvas.width c)))
    (Num (Int (canvas.height c))) = inr tt.
Proof.
  intros Hok.
  pose proof (ok_width c Hok). pose proof (ok_height c Hok).
  rewrite getImageData_int by lia.
  destruct (Z.eqb_spec (canvas.width c) 0), (Z.eqb_spec (canvas.height c) 0);
    try lia.
  reflexivity.
Qed.

(** [undefined] and [NaN] are no arguments for it. *)
Lemma getImageData_undefined sy sw sh :
  getImageData Undefined sy sw sh = inl TypeError.
Proof. reflexivity. Qed.

(** [trimCanvas] throws what [crop_error] says, and otherwise writes
    [crop_write] and returns [crop_result]. *)
Lemma trimCanvas_eq c filepath padding d :
  trimCanvas c filepath padding d =
    match crop_error c padding with
    | Some e => inl e
    | None =>
        inr (d ++ [crop_write c filepath padding],
             crop_result c filepath padding)
    end.
Proof.
  unfold trimCanvas, crop_error.
  destruct (getImageData (Num (Int 0)) _ _ _); [reflexivity|].
  cbn zeta. destruct (getImageData (bound.left _) _ _ _); reflexivity.
Qed.

(** The second call, on a crop box with integer coordinates on the
    canvas: it throws exactly when the box is empty. *)
Lemma crop_error_int c padding (t l r b : Z) :
  canvas_ok c ->
  crop_bound c padding =
    bound.mk (Num (Int t)) (Num (Int l)) (Num (Int r)) (Num (Int b)) ->
  0 <= l <= canvas.width c -> 0 <= r <= canvas.width c ->
  0 <= t <= canvas.height c -> 0 <= b <= canvas.height c ->
  crop_error c padding =
    if (r - l =? 0) || (b - t =? 0) then Some IndexSizeError else None.
Proof.
  intros Hok Hbox Hl Hr Ht Hb.
  pose proof (ok_width c Hok). pose proof (ok_height c Hok).
  unfold crop_error. rewrite (getImageData_canvas c Hok), Hbox.
  cbn [bound.top bound.left bound.right bound.bottom].
  unfold JS.minus. cbn [ToNumber sub].
  rewrite getImageData_int by lia.
  destruct ((r - l =? 0) || (b - t =? 0)); reflexivity.
Qed.

(** ** [clamp] on [NaN] *)

Lemma minus_NaN v : minus v (Num NaN) = Num NaN.
Proof. unfold JS.minus. destruct (ToNumber v); reflexivity. Qed.

Lemma plus_NaN v : plus v (Num NaN) = Num NaN.
Proof. unfold JS.plus. destruct (ToNumber v); reflexivity. Qed.

Lemma isBetween_NaN min max : isBetween (Num NaN) min max = false.
Proof.
  unfold isBetween, greater_eq, less_eq. cbn [ToNumber].
  destruct (_ || _); [reflexivity|].
  destruct (ToNumber min); reflexivity.
Qed.

(** C9: [clamp] is not total.  For a [NaN] value, whatever [min] and [max]
    are, it takes none of its three branches and returns [undefined]; with
    a [NaN] padding every bound is [NaN] after the padding pass, so all
    four bounds used for the crop are [undefined] instead of clamped
    coordinates.  The crop is then asked for as
    [getImageData(undefined, undefined, NaN, NaN)], which throws: on a
    [NaN] padding [trimCanvas] writes nothing and returns nothing. *)
Theorem clamp_NaN_undefined :
  (forall min max, clamp (Num NaN) min max = Undefined) /\
  (forall b, add_padding (Num NaN) b =
     bound.mk (Num NaN) (Num NaN) (Num NaN) (Num NaN)) /\
  (forall c,
     crop_bound c (Num NaN) = bound.mk Undefined Undefined Undefined Undefined)
  /\
  (forall c filepath d,
     getImageData Undefined Undefined (Num NaN) (Num NaN) = inl TypeError
     /\ exists e, trimCanvas c filepath (Num NaN) d = inl e).
Proof.
  assert (Hclamp : forall min max, clamp (Num NaN) min max = Undefined).
  { intros min max. unfold clamp. rewrite isBetween_NaN.
    unfold less, greater. cbn [ToNumber].
    destruct (ToNumber min), (ToNumber max); reflexivity. }
  assert (Hpad : forall b, add_padding (Num NaN) b =
     bound.mk (Num NaN) (Num NaN) (Num NaN) (Num NaN)).
  { intros b. rewrite add_padding_fields, !minus_NaN, !plus_NaN. reflexivity. }
  assert (Hcrop : forall c,
     crop_bound c (Num NaN) = bound.mk Undefined Undefined Undefined Undefined).
  { intros c. unfold crop_bound. rewrite Hpad, clamp_bound_fields.
    cbn [bound.top bound.left bound.right bound.bottom].
    rewrite !Hclamp. reflexivity. }
  split; [exact Hclamp|]. split; [exact Hpad|]. split; [exact Hcrop|].
  intros c filepath d. split; [reflexivity|].
  rewrite trimCanvas_eq. unfold crop_error. rewrite Hcrop.
  destruct (getImageData (Num (Int 0)) _ _ _) as [e|_]; [eauto|].
  cbn [bound.left]. rewrite getImageData_undefined. eauto.
Qed.

(** ** The result record *)

(** The crop box of a canvas for an integer padding has integer
    coordinates, ordered and on the canvas. *)
Lemma crop_bound_int c (p : Z) :
  canvas_ok c ->
  exists t l r b : Z,
    crop_bound c (Num (Int p)) =
      bound.mk (Num (Int t)) (Num (Int l)) (Num (Int r)) (Num (Int b))
    /\ 0 <= l <= canvas.width c /\ 0 <= r <= canvas.width c
    /\ 0 <= t <= canvas.height c /\ 0 <= b <= canvas.height c.
Proof.
  intros Hok.
  pose proof (ok_width c Hok). pose proof (ok_height c Hok).
  rewrite crop_bound_apply.
  destruct (scan_shape c Hok) as [-> | (t & l & r & b & ->)].
  - rewrite apply_padding_null by lia.
    eexists _, _, _, _. split; [reflexivity|]. unfold clamp_to. lia.
  - rewrite apply_padding_int by lia.
    eexists _, _, _, _. split; [reflexivity|]. unfold clamp_to. lia.
Qed.

(** What [trimCanvas] does once the crop box is known to have integer
    coordinates on the canvas: it throws when the box is empty, and
    otherwise writes the box and returns its record. *)
Lemma trimCanvas_box c filepath padding d (t l r b : Z) :
  canvas_ok c ->
  crop_bound c padding =
    bound.mk (Num (Int t)) (Num (Int l)) (Num (Int r)) (Num (Int b)) ->
  0 <= l <= canvas.width c -> 0 <= r <= canvas.width c ->
  0 <= t <= canvas.height c -> 0 <= b <= canvas.height c ->
  trimCanvas c filepath padding d =
    if (r - l =? 0) || (b - t =? 0) then inl IndexSizeError
    else
      inr
        (d ++ [write.mk filepath c (Num (Int l)) (Num (Int t))
                 (Num (Int (r - l))) (Num (Int (b - t)))],
         {| result.name := strip_png (last_segment filepath);
            result.fullName := last_segment filepath;
            result.path := filepath;
            result.left := Num (Int l);
            result.top := Num (Int t);
            result.right := Num (Int (canvas.width c - r));
            result.bottom := Num (Int (canvas.height c - b));
            result.width := Num (Int (r - l));
            result.height := Num (Int (b - t));
            result.naturalWidth := Num (Int (canvas.width c));
            result.naturalHeight := Num (Int (canvas.height c));
            result.geometricBounds :=
              [Num (Int l); Num (Int t); Num (Int r); Num (Int b)] |}).
Proof.
  intros Hok Hbox Hl Hr Ht Hb.
  rewrite trimCanvas_eq, (crop_error_int c padding t l r b) by assumption.
  destruct ((r - l =? 0) || (b - t =? 0)); [reflexivity|].
  unfold crop_write, crop_result. rewrite Hbox. reflexivity.
Qed.

(** The same for an integer padding, where the crop box always has
    integer coordinates on the canvas. *)
Lemma trimCanvas_int c filepath (p : Z) d :
  canvas_ok c ->
  exists t l r b : Z,
    crop_bound c (Num (Int p)) =
      bound.mk (Num (Int t)) (Num (Int l)) (Num (Int r)) (Num (Int b))
    /\ (0 <= l <= canvas.width c /\ 0 <= r <= canvas.width c)
    /\ (0 <= t <= canvas.height c /\ 0 <= b <= canvas.height c)
    /\ trimCanvas c filepath (Num (Int p)) d =
         if (r - l =? 0) || (b - t =? 0) then inl IndexSizeError
         else
           inr
             (d ++ [write.mk filepath c (Num (Int l)) (Num (Int t))
                      (Num (Int (r - l))) (Num (Int (b - t)))],
              {| result.name := strip_png (last_segment filepath);
                 result.fullName := last_segment filepath;
                 result.path := filepath;
                 result.left := Num (Int l);
                 result.top := Num (Int t);
                 result.right := Num (Int (canvas.width c - r));
                 result.bottom := Num (Int (canvas.height c - b));
                 result.width := Num (Int (r - l));
                 result.height := Num (Int (b - t));
                 result.naturalWidth := Num (Int (canvas.width c));
                 result.naturalHeight := Num (Int (canvas.height c));
                 result.geometricBounds :=
                   [Num (Int l); Num (Int t); Num (Int r); Num (Int b)] |}).
Proof.
  intros Hok.
  destruct (crop_bound_int c p Hok) as (t & l & r & b & Hbox & Hl & Hr & Ht & Hb).
  exists t, l, r, b. split; [exact Hbox|]. split; [auto|]. split; [auto|].
  apply trimCanvas_box; assumption.
Qed.

(** C10: in a record returned for a canvas and an integer padding, the
    edge distances and the crop size add up to the original size,
    [left + width + right = naturalWidth] and
    [top + height + bottom = naturalHeight], and [geometricBounds] is
    [[left, top, naturalWidth - right, naturalHeight - bottom]].  (For a
    padding that is not an integer the sums are rounded and can miss.) *)
Theorem result_consistent c filepath (p : Z) (d d' : disk) (res : result.t) :
  canvas_ok c ->
  trimCanvas c filepath (Num (Int p)) d = inr (d', res) ->
  exists left top right bottom width height : Z,
    result.left res = Num (Int left) /\ result.top res = Num (Int top)
    /\ result.right res = Num (Int right)
    /\ result.bottom res = Num (Int bottom)
    /\ result.width res = Num (Int width)
    /\ result.height res = Num (Int height)
    /\ result.naturalWidth res = Num (Int (canvas.width c))
    /\ result.naturalHeight res = Num (Int (canvas.height c))
    /\ left + width + right = canvas.width c
    /\ top + height + bottom = canvas.height c
    /\ result.geometricBounds res =
         [Num (Int left); Num (Int top);
          Num (Int (canvas.width c - right));
          Num (Int (canvas.height c - bottom))]
    /\ plus (plus (result.left res) (result.width res)) (result.right res) =
         result.naturalWidth res
    /\ plus (plus (result.top res) (result.height res)) (result.bottom res) =
         result.naturalHeight res
    /\ result.geometricBounds res =
         [result.left res; result.top res;
          minus (result.naturalWidth res) (result.right res);
          minus (result.naturalHeight res) (result.bottom res)].
Proof.
  intros Hok Hret.
  destruct (trimCanvas_int c filepath p d Hok)
    as (t & l & r & b & _ & _ & _ & Heq).
  rewrite Heq in Hret.
  destruct ((r - l =? 0) || (b - t =? 0)); [discriminate|].
  injection Hret as _ <-.
  cbn [result.left result.top result.right result.bottom result.width
       result.height result.naturalWidth result.naturalHeight
       result.geometricBounds].
  exists l, t, (canvas.width c - r), (canvas.height c - b), (r - l), (b - t).
  assert (Hr : canvas.width c - (canvas.width c - r) = r) by lia.
  assert (Hb : canvas.height c - (canvas.height c - b) = b) by lia.
  assert (Hx : l + (r - l) + (canvas.width c - r) = canvas.width c) by lia.
  assert (Hy : t + (b - t) + (canvas.height c - b) = canvas.height c) by lia.
  unfold JS.plus, JS.minus. cbn [ToNumber add sub]. rewrite Hr, Hb, Hx, Hy.
  repeat split; reflexivity.
Qed.

(** ** Painted canvases *)

Lemma pixels_length (g : nat -> byte) (l : list nat) :
  length (flat_map (fun k => pixel_bytes (g k)) l) = (4 * length l)%nat.
Proof. induction l as [|a l IH]; cbn [flat_map length app pixel_bytes]; lia. Qed.

Lemma pixels_alpha (g : nat -> byte) (l : list nat) : forall k : nat,
  flat_map (fun k => pixel_bytes (g k)) l !! (4 * k + 3)%nat = g <$> l !! k.
Proof.
  induction l as [|a l IH]; intros k; [reflexivity|].
  destruct k as [|k].
  - reflexivity.
  - replace (4 * S k + 3)%nat with (4 + (4 * k + 3))%nat by lia.
    cbn [flat_map pixel_bytes]. exact (IH k).
Qed.

Lemma paint_alpha w h f (x y : nat) :
  (x < w)%nat -> (y < h)%nat ->
  alpha (paint w h f) (Z.of_nat x) (Z.of_nat y) = Some (f x y).
Proof.
  intros Hx Hy. unfold alpha, paint. cbn [canvas.width canvas.data].
  replace (Z.to_nat (4 * (Z.of_nat y * Z.of_nat w + Z.of_nat x) + 3))
    with (4 * (y * w + x) + 3)%nat by lia.
  assert (Hm : ((y * w + x) mod w = x)%nat).
  { rewrite Nat.add_comm, Nat.Div0.mod_add. apply Nat.mod_small. lia. }
  assert (Hd : ((y * w + x) / w = y)%nat).
  { rewrite Nat.div_add_l, Nat.div_small by lia. lia. }
  rewrite pixels_alpha, lookup_seq_lt by nia.
  cbn [fmap option_fmap option_map Nat.add]. rewrite Hm, Hd. reflexivity.
Qed.

Lemma paint_ok w h f :
  0 < Z.of_nat w < 2 ^ 31 -> 0 < Z.of_nat h < 2 ^ 31 ->
  canvas_ok (paint w h f).
Proof.
  intros Hw Hh. constructor; cbn [paint canvas.width canvas.height canvas.data];
    try assumption.
  rewrite pixels_length, length_seq. lia.
Qed.

Lemma paint_relevant w h f (x y : Z) :
  relevant (paint w h f) x y =
    (0 <=? x) && (x <? Z.of_nat w) && (0 <=? y) && (y <? Z.of_nat h)
    && negb (Byte.eqb (f (Z.to_nat x) (Z.to_nat y)) x00).
Proof.
  unfold relevant. cbn [paint canvas.width canvas.height].
  destruct (Z.leb_spec 0 x); [|reflexivity].
  destruct (Z.ltb_spec x (Z.of_nat w)); [|reflexivity].
  destruct (Z.leb_spec 0 y); [|reflexivity].
  destruct (Z.ltb_spec y (Z.of_nat h)); [|reflexivity].
  cbn [andb]. f_equal.
  rewrite <- (Z2Nat.id x) at 1 by assumption.
  rewrite <- (Z2Nat.id y) at 1 by assumption.
  rewrite paint_alpha by lia. reflexivity.
Qed.

(** The extrema determine the scan. *)
Lemma scan_unique c (t l r b : Z) :
  canvas_ok c ->
  topmost c t -> leftmost c l -> rightmost c r -> bottommost c b ->
  scan c = bound.mk (Num (Int t)) (Num (Int l)) (Num (Int r)) (Num (Int b)).
Proof.
  intros Hok [[xt Hxt] Ht] [[yl Hyl] Hl] [[yr Hyr] Hr] [[xb Hxb] Hb].
  destruct (scan_found c Hok)
    as (t' & l' & r' & b' & -> & Ht' & Hl' & Hr' & Hb').
  { eauto. }
  destruct Ht' as [[xt' Hxt'] Ht'], Hl' as [[yl' Hyl'] Hl'],
    Hr' as [[yr' Hyr'] Hr'], Hb' as [[xb' Hxb'] Hb'].
  pose proof (Ht _ _ Hxt'). pose proof (Ht' _ _ Hxt).
  pose proof (Hl _ _ Hyl'). pose proof (Hl' _ _ Hyl).
  pose proof (Hr _ _ Hyr'). pose proof (Hr' _ _ Hyr).
  pose proof (Hb _ _ Hxb'). pose proof (Hb' _ _ Hxb).
  repeat f_equal; lia.
Qed.

Ltac compare_cases :=
  repeat match goal with
         | |- context [(?a <=? ?b)%nat] => destruct (Nat.leb_spec a b)
         | |- context [(?a <? ?b)%nat] => destruct (Nat.ltb_spec a b)
         | |- context [?a <=? ?b] => destruct (Z.leb_spec a b)
         | |- context [?a <? ?b] => destruct (Z.ltb_spec a b)
         end.

Lemma square_relevant (w h x0 y0 side : nat) (x y : Z) :
  (x0 + side <= w)%nat -> (y0 + side <= h)%nat ->
  relevant (paint w h (opaque_square x0 y0 side)) x y = true <->
  (Z.of_nat x0 <= x /\ x < Z.of_nat (x0 + side)) /\
  (Z.of_nat y0 <= y /\ y < Z.of_nat (y0 + side)).
Proof.
  intros Hw Hh. rewrite paint_relevant. unfold opaque_square.
  compare_cases; cbn; split; intros; try discriminate; try reflexivity; lia.
Qed.

(** The scan of a canvas whose only opaque pixels form a square. *)
Lemma scan_square (w h x0 y0 side : nat) :
  0 < Z.of_nat w < 2 ^ 31 -> 0 < Z.of_nat h < 2 ^ 31 ->
  (0 < side)%nat -> (x0 + side <= w)%nat -> (y0 + side <= h)%nat ->
  scan (paint w h (opaque_square x0 y0 side)) =
    bound.mk (Num (Int (Z.of_nat y0))) (Num (Int (Z.of_nat x0)))
      (Num (Int (Z.of_nat (x0 + side) - 1)))
      (Num (Int (Z.of_nat (y0 + side) - 1))).
Proof.
  intros Hw Hh Hside Hx Hy.
  apply scan_unique; [apply paint_ok; assumption | | | |]; split.
  - exists (Z.of_nat x0). apply square_relevant; lia.
  - intros x y Hrel. apply square_relevant in Hrel; lia.
  - exists (Z.of_nat y0). apply square_relevant; lia.
  - intros x y Hrel. apply square_relevant in Hrel; lia.
  - exists (Z.of_nat y0). apply square_relevant; lia.
  - intros x y Hrel. apply square_relevant in Hrel; lia.
  - exists (Z.of_nat x0). apply square_relevant; lia.
  - intros x y Hrel. apply square_relevant in Hrel; lia.
Qed.

Lemma example_square_scan :
  scan example_square =
    bound.mk (Num (Int 50)) (Num (Int 50)) (Num (Int 149)) (Num (Int 149)).
Proof.
  unfold example_square. rewrite scan_square by lia. reflexivity.
Qed.

Lemma example_square_width : canvas.width example_square = 1000.
Proof. reflexivity. Qed.

Lemma example_square_height : canvas.height example_square = 1000.
Proof. reflexivity. Qed.

Lemma example_square_ok : canvas_ok example_square.
Proof. apply paint_ok; lia. Qed.

(** C1: on the 1000 by 1000 image with an opaque 100 by 100 square at
    (50, 50) and padding [0], the program returns [left = 50], [top = 50],
    [right = 851], [bottom = 851], [width = 99], [height = 99],
    [naturalWidth = 1000], [naturalHeight = 1000] and
    [geometricBounds = [50, 50, 149, 149]]: the last opaque column and row
    are taken as the exclusive end of the crop. *)
Theorem example_square_result filepath d :
  exists res,
    trimCanvas example_square filepath (Num (Int 0)) d =
      inr (d ++ [write.mk filepath example_square (Num (Int 50))
                   (Num (Int 50)) (Num (Int 99)) (Num (Int 99))], res)
    /\ result.left res = Num (Int 50) /\ result.top res = Num (Int 50)
    /\ result.right res = Num (Int 851) /\ result.bottom res = Num (Int 851)
    /\ result.width res = Num (Int 99) /\ result.height res = Num (Int 99)
    /\ result.naturalWidth res = Num (Int 1000)
    /\ result.naturalHeight res = Num (Int 1000)
    /\ result.geometricBounds res =
         [Num (Int 50); Num (Int 50); Num (Int 149); Num (Int 149)].
Proof.
  assert (Hbox : crop_bound example_square (Num (Int 0)) =
    bound.mk (Num (Int 50)) (Num (Int 50)) (Num (Int 149)) (Num (Int 149))).
  { rewrite crop_bound_apply, example_square_scan.
    rewrite apply_padding_int
      by (rewrite ?example_square_width, ?example_square_height; lia).
    rewrite example_square_width, example_square_height. reflexivity. }
  rewrite (trimCanvas_box example_square filepath _ d 50 50 149 149
             example_square_ok Hbox)
    by (rewrite ?example_square_width, ?example_square_height; lia).
  assert (Hsize : (149 - 50 =? 0) || (149 - 50 =? 0) = false) by reflexivity.
  rewrite Hsize. eexists. split; [reflexivity|].
  cbn [result.left result.top result.right result.bottom result.width
       result.height result.naturalWidth result.naturalHeight
       result.geometricBounds].
  rewrite example_square_width, example_square_height.
  repeat split; reflexivity.
Qed.

(** The scan of a canvas whose pixels are all non-transparent. *)
Lemma scan_opaque c :
  canvas_ok c ->
  (forall x y, 0 <= x < canvas.width c -> 0 <= y < canvas.height c ->
     relevant c x y = true) ->
  crop_bound c (Num (Int 0)) =
    bound.mk (Num (Int 0)) (Num (Int 0)) (Num (Int (canvas.width c - 1)))
      (Num (Int (canvas.height c - 1))).
Proof.
  intros Hok Hall.
  pose proof (ok_width c Hok) as HW. pose proof (ok_height c Hok) as HH.
  assert (Hscan : scan c =
    bound.mk (Num (Int 0)) (Num (Int 0)) (Num (Int (canvas.width c - 1)))
      (Num (Int (canvas.height c - 1)))).
  { apply scan_unique; [assumption | | | |]; split;
      try (intros x y Hrel; apply relevant_on_canvas in Hrel; lia).
    - exists 0. apply Hall; lia.
    - exists 0. apply Hall; lia.
    - exists 0. apply Hall; lia.
    - exists 0. apply Hall; lia. }
  rewrite crop_bound_apply, Hscan, apply_padding_int by lia.
  unfold clamp_to. f_equal; do 2 f_equal; lia.
Qed.

(** C2: on a canvas whose pixels are all non-transparent, with padding
    [0], the last column and row are cut off.  For an image of at least
    two columns and two rows the program returns [left = 0] and [top = 0]
    but [right = 1], [bottom = 1], [width = naturalWidth - 1] and
    [height = naturalHeight - 1]; for an image of one column or one row
    nothing is left, and the crop throws instead of returning a record. *)
Theorem opaque_canvas_result c filepath d :
  canvas_ok c ->
  (forall x y, 0 <= x < canvas.width c -> 0 <= y < canvas.height c ->
     relevant c x y = true) ->
  (2 <= canvas.width c -> 2 <= canvas.height c ->
   exists res,
     trimCanvas c filepath (Num (Int 0)) d =
       inr (d ++ [write.mk filepath c (Num (Int 0)) (Num (Int 0))
                    (Num (Int (canvas.width c - 1)))
                    (Num (Int (canvas.height c - 1)))], res)
     /\ result.left res = Num (Int 0) /\ result.top res = Num (Int 0)
     /\ result.right res = Num (Int 1) /\ result.bottom res = Num (Int 1)
     /\ result.width res = Num (Int (canvas.width c - 1))
     /\ result.height res = Num (Int (canvas.height c - 1))
     /\ result.naturalWidth res = Num (Int (canvas.width c))
     /\ result.naturalHeight res = Num (Int (canvas.height c)))
  /\ (canvas.width c = 1 \/ canvas.height c = 1 ->
      trimCanvas c filepath (Num (Int 0)) d = inl IndexSizeError).
Proof.
  intros Hok Hall.
  pose proof (ok_width c Hok) as HW. pose proof (ok_height c Hok) as HH.
  pose proof (scan_opaque c Hok Hall) as Hbox.
  rewrite (trimCanvas_box c filepath _ d 0 0 (canvas.width c - 1)
             (canvas.height c - 1) Hok Hbox) by lia.
  split.
  - intros Hw Hh.
    destruct (Z.eqb_spec (canvas.width c - 1 - 0) 0),
      (Z.eqb_spec (canvas.height c - 1 - 0) 0); try lia.
    cbn [orb]. rewrite !Z.sub_0_r. eexists. split; [reflexivity|].
    cbn [result.left result.top result.right result.bottom result.width
         result.height result.naturalWidth result.naturalHeight].
    repeat split; try reflexivity; do 2 f_equal; lia.
  - intros Hone.
    destruct (Z.eqb_spec (canvas.width c - 1 - 0) 0),
      (Z.eqb_spec (canvas.height c - 1 - 0) 0); try reflexivity; lia.
Qed.

(** C3: on a fully transparent canvas the scan leaves the four bounds
    [null], which the padding arithmetic reads as [0], and no error is
    reported.  With the default padding [0] the crop is empty:
    [getImageData(0, 0, 0, 0)] throws in the load handler, which leaves
    everything as it was, the promise of the image unsettled.  With a
    padding [p >= 1] the program overwrites the file with the [min p width]
    by [min p height] corner at the origin and returns a record for it. *)
Theorem transparent_canvas_result c filepath (p : Z) d :
  canvas_ok c -> (forall x y, relevant c x y = false) -> 0 <= p ->
  let w := Z.min p (canvas.width c) in
  let h := Z.min p (canvas.height c) in
  scan c = initial_bound
  /\ (p = 0 ->
      trimCanvas c filepath (Num (Int p)) d = inl IndexSizeError
      /\ forall items st i,
           items !! i = Some (Loading filepath c) ->
           onload items (Num (Int p)) st i = st)
  /\ (1 <= p ->
      exists res,
        trimCanvas c filepath (Num (Int p)) d =
          inr (d ++ [write.mk filepath c (Num (Int 0)) (Num (Int 0))
                       (Num (Int w)) (Num (Int h))], res)
        /\ result.left res = Num (Int 0) /\ result.top res = Num (Int 0)
        /\ result.right res = Num (Int (canvas.width c - w))
        /\ result.bottom res = Num (Int (canvas.height c - h))
        /\ result.width res = Num (Int w)
        /\ result.height res = Num (Int h)
        /\ result.geometricBounds res =
             [Num (Int 0); Num (Int 0); Num (Int w); Num (Int h)]).
Proof.
  intros Hok Hnone Hp w h.
  pose proof (ok_width c Hok) as HW. pose proof (ok_height c Hok) as HH.
  pose proof (scan_transparent c Hok Hnone) as Hscan.
  assert (Hbox : crop_bound c (Num (Int p)) =
    bound.mk (Num (Int 0)) (Num (Int 0)) (Num (Int w)) (Num (Int h))).
  { rewrite crop_bound_apply, Hscan, apply_padding_null by lia.
    unfold clamp_to. subst w h. f_equal; do 2 f_equal; lia. }
  assert (Hcrop : forall d0,
    trimCanvas c filepath (Num (Int p)) d0 =
      if (w - 0 =? 0) || (h - 0 =? 0) then inl IndexSizeError
      else
        inr
          (d0 ++ [write.mk filepath c (Num (Int 0)) (Num (Int 0))
                    (Num (Int (w - 0))) (Num (Int (h - 0)))],
           {| result.name := strip_png (last_segment filepath);
              result.fullName := last_segment filepath;
              result.path := filepath;
              result.left := Num (Int 0);
              result.top := Num (Int 0);
              result.right := Num (Int (canvas.width c - w));
              result.bottom := Num (Int (canvas.height c - h));
              result.width := Num (Int (w - 0));
              result.height := Num (Int (h - 0));
              result.naturalWidth := Num (Int (canvas.width c));
              result.naturalHeight := Num (Int (canvas.height c));
              result.geometricBounds :=
                [Num (Int 0); Num (Int 0); Num (Int w); Num (Int h)] |})).
  { intros d0. apply (trimCanvas_box c filepath _ d0 0 0 w h Hok Hbox);
      subst w h; lia. }
  split; [exact Hscan|]. split.
  - intros Hzero.
    assert (Hthrows : forall d0,
      trimCanvas c filepath (Num (Int p)) d0 = inl IndexSizeError).
    { intros d0. rewrite Hcrop.
      destruct (Z.eqb_spec (w - 0) 0); [reflexivity | subst w; lia]. }
    split; [apply Hthrows|].
    intros items st i Hi. unfold onload. rewrite Hi, Hthrows. reflexivity.
  - intros Hone. rewrite Hcrop.
    destruct (Z.eqb_spec (w - 0) 0), (Z.eqb_spec (h - 0) 0);
      try (subst w h; lia).
    cbn [orb]. replace (w - 0) with w by lia. replace (h - 0) with h by lia.
    eexists. split; [reflexivity|].
    cbn [result.left result.top result.right result.bottom result.width
         result.height result.geometricBounds].
    repeat split; reflexivity.
Qed.

(** ** The theorems at work on the small images *)

Lemma small_square_ok : canvas_ok small_square.
Proof. constructor; [cbn; lia | cbn; lia | reflexivity]. Defined.

Lemma small_opaque_ok : canvas_ok small_opaque.
Proof. constructor; [cbn; lia | cbn; lia | reflexivity]. Defined.

Lemma small_transparent_ok : canvas_ok small_transparent.
Proof. constructor; [cbn; lia | cbn; lia | reflexivity]. Defined.

Lemma scan_extrema_small_square :
  canvas_ok small_square /\
  (exists x y, relevant small_square x y = true) /\
  exists t l r b : Z,
    scan small_square =
      bound.mk (Num (Int t)) (Num (Int l)) (Num (Int r)) (Num (Int b))
    /\ topmost small_square t /\ bottommost small_square b
    /\ leftmost small_square l /\ rightmost small_square r
    /\ (0 <= l /\ l <= r /\ r < canvas.width small_square)
    /\ (0 <= t /\ t <= b /\ b < canvas.height small_square).
Proof.
  assert (Hex : exists x y, relevant small_square x y = true)
    by (exists 1, 1; reflexivity).
  split; [exact small_square_ok|]. split; [exact Hex|].
  exact (scan_extrema small_square small_square_ok Hex).
Defined.

Lemma padding_then_clamp_small_square :
  box_on small_square 1 1 2 2 /\
  apply_padding small_square (Num (Int 10))
    (bound.mk (Num (Int 1)) (Num (Int 1)) (Num (Int 2)) (Num (Int 2))) =
  bound.mk (Num (Int 0)) (Num (Int 0)) (Num (Int 4)) (Num (Int 3)).
Proof.
  assert (Hbox : box_on small_square 1 1 2 2) by (unfold box_on; cbn; lia).
  split; [exact Hbox|].
  apply (padding_then_clamp small_square 10 1 1 2 2 Hbox); cbn; lia.
Defined.


Lemma small_square_trimmed :
  exists res,
    trimCanvas small_square "/e.png" (Num (Int 0)) [] =
      inr ([write.mk "/e.png" small_square (Num (Int 1)) (Num (Int 1))
              (Num (Int 1)) (Num (Int 1))], res).
Proof. eexists. vm_compute. reflexivity. Defined.

Lemma result_consistent_small_square :
  canvas_ok small_square /\
  exists d res,
    trimCanvas small_square "/e.png" (Num (Int 0)) [] = inr (d, res) /\
    exists left top right bottom width height : Z,
      result.left res = Num (Int left) /\ result.top res = Num (Int top)
      /\ result.right res = Num (Int right)
      /\ result.bottom res = Num (Int bottom)
      /\ result.width res = Num (Int width)
      /\ result.height res = Num (Int height)
      /\ left + width + right = canvas.width small_square
      /\ top + height + bottom = canvas.height small_square.
Proof.
  split; [exact small_square_ok|].
  destruct small_square_trimmed as [res Hres].
  eexists _, res. split; [exact Hres|].
  destruct (result_consistent small_square "/e.png" 0 [] _ res
              small_square_ok Hres)
    as (l & t & r & b & w & h & Hl & Ht & Hr & Hb & Hw & Hh & _ & _ & Hx & Hy
        & _).
  exists l, t, r, b, w, h. repeat split; assumption.
Defined.

(** C10 fails for a padding that is not an integer.  On the 20 by 20
    image with a margin of three pixels on the left and at the top, the
    padding [0.01] gives [left = 2.9900000000000002],
    [width = 16.020000000000003] and [right = 0.98999999999999844],
    doubles that add up to [20.000000000000004] and not to
    [naturalWidth = 20].  On the 7 by 7 image with the square in its
    corner, the padding [0.1] gives [geometricBounds[2] = 2.1] and
    [right = 4.9], and [naturalWidth - right] is [2.0999999999999996]. *)
Lemma result_inconsistent_fraction :
  (exists d res,
     trimCanvas margin_square "/m.png" (Num (Dbl one_hundredth)) [] =
       inr (d, res)
     /\ result.naturalWidth res = Num (Int 20)
     /\ plus (plus (result.left res) (result.width res)) (result.right res) =
          Num (Dbl 0x1.4000000000001p+4)
     /\ strict_eq
          (plus (plus (result.left res) (result.width res))
             (result.right res))
          (result.naturalWidth res) = false)
  /\
  (exists d res bound_right,
     trimCanvas corner_square "/c.png" (Num (Dbl one_tenth)) [] =
       inr (d, res)
     /\ result.geometricBounds res =
          [Num (Int 0); Num (Int 0); bound_right; bound_right]
     /\ minus (result.naturalWidth res) (result.right res) =
          Num (Dbl 0x1.0ccccccccccccp+1)
     /\ strict_eq bound_right
          (minus (result.naturalWidth res) (result.right res)) = false).
Proof.
  split.
  - eexists _, _. split; [vm_compute; reflexivity|].
    repeat split; vm_compute; reflexivity.
  - eexists _, _, _. split; [vm_compute; reflexivity|].
    repeat split; vm_compute; reflexivity.
Qed.

Lemma small_opaque_all x y :
  0 <= x < canvas.width small_opaque -> 0 <= y < canvas.height small_opaque ->
  relevant small_opaque x y = true.
Proof.
  cbn. intros Hx Hy.
  assert (Hx' : x = 0 \/ x = 1) by lia. assert (Hy' : y = 0 \/ y = 1) by lia.
  destruct Hx' as [->| ->], Hy' as [->| ->]; reflexivity.
Defined.

Lemma opaque_canvas_result_small :
  canvas_ok small_opaque
  /\ (forall x y,
        0 <= x < canvas.width small_opaque ->
        0 <= y < canvas.height small_opaque ->
        relevant small_opaque x y = true)
  /\ exists res,
       trimCanvas small_opaque "/d/a.png" (Num (Int 0)) [] =
         inr ([write.mk "/d/a.png" small_opaque (Num (Int 0)) (Num (Int 0))
                 (Num (Int 1)) (Num (Int 1))], res)
       /\ result.left res = Num (Int 0) /\ result.right res = Num (Int 1)
       /\ result.width res = Num (Int 1)
       /\ result.naturalWidth res = Num (Int 2).
Proof.
  split; [exact small_opaque_ok|]. split; [exact small_opaque_all|].
  destruct (proj1 (opaque_canvas_result small_opaque "/d/a.png" []
                     small_opaque_ok small_opaque_all))
    as (res & Hres & Hl & _ & Hr & _ & Hw & _ & Hn & _);
    [cbn; lia | cbn; lia |].
  exists res. repeat split; assumption.
Defined.

Lemma small_transparent_none x y : relevant small_transparent x y = false.
Proof.
  unfold small_transparent. rewrite paint_relevant.
  apply andb_false_iff. right. reflexivity.
Defined.

Lemma transparent_canvas_result_small :
  canvas_ok small_transparent
  /\ (forall x y, relevant small_transparent x y = false)
  /\ 0 <= 0 /\ 0 <= 1
  /\ trimCanvas small_transparent "/t.png" (Num (Int 0)) [] =
       inl IndexSizeError
  /\ exists res,
       trimCanvas small_transparent "/t.png" (Num (Int 1)) [] =
         inr ([write.mk "/t.png" small_transparent (Num (Int 0)) (Num (Int 0))
                 (Num (Int 1)) (Num (Int 1))], res)
       /\ result.width res = Num (Int 1) /\ result.height res = Num (Int 1).
Proof.
  assert (Hp0 : 0 <= 0) by lia. assert (Hp1 : 0 <= 1) by lia.
  split; [exact small_transparent_ok|].
  split; [exact small_transparent_none|].
  split; [exact Hp0|]. split; [exact Hp1|]. split.
  - destruct (transparent_canvas_result small_transparent "/t.png" 0 []
                small_transparent_ok small_transparent_none Hp0)
      as (_ & Hthrows & _).
    apply Hthrows. reflexivity.
  - destruct (transparent_canvas_result small_transparent "/t.png" 1 []
                small_transparent_ok small_transparent_none Hp1)
      as (_ & _ & Hreturns).
    destruct Hreturns as (res & Hres & _ & _ & _ & _ & Hw & Hh & _); [lia|].
    exists res. repeat split; assumption.
Defined.

(** ** The batch *)

Local Close Scope Z_scope.

Lemma reject_all_cons it items s :
  reject_all (it :: items) s =
    reject_all items
      match it with Rejecting e => all_reject e s | Loading _ _ => s end.
Proof. reflexivity. Qed.

Lemma reject_all_values items : forall s,
  all.values (reject_all items s) = all.values s /\
  all.remaining (reject_all items s) = all.remaining s.
Proof.
  induction items as [|[e|targFile c] items IH]; intros s;
    [split; reflexivity | |]; rewrite reject_all_cons; [|apply IH].
  destruct (IH (all_reject e s)) as [-> ->]. split; reflexivity.
Qed.

Lemma reject_all_rejected items e : forall s,
  all.settled s = Rejected e -> all.settled (reject_all items s) = Rejected e.
Proof.
  induction items as [|[e'|targFile c] items IH]; intros s Hs;
    [exact Hs | |]; rewrite reject_all_cons; apply IH; [|exact Hs].
  cbn. rewrite Hs. reflexivity.
Qed.

Lemma reject_all_settled items : forall s,
  all.settled s = Pending ->
  all.settled (reject_all items s) =
    match first_error items with
    | Some e => Rejected e
    | None => Pending
    end.
Proof.
  induction items as [|[e|targFile c] items IH]; intros s Hs;
    [exact Hs | |]; rewrite reject_all_cons; cbn [first_error];
    [|apply IH; exact Hs].
  apply reject_all_rejected. cbn. rewrite Hs. reflexivity.
Qed.

(** The images whose load handler returns a record. *)
Lemma result_at_Some items padding j r :
  result_at items padding j = Some r ->
  exists targFile c,
    items !! j = Some (Loading targFile c) /\ crop_error c padding = None
    /\ r = crop_result c targFile padding
    /\ write_at items padding j = Some (crop_write c targFile padding).
Proof.
  unfold result_at, write_at.
  destruct (items !! j) as [[e|targFile c]|]; try discriminate.
  cbn [mbind option_bind item_result item_write].
  destruct (crop_error c padding) eqn:Herr; [discriminate|].
  intros [= <-]. exists targFile, c. auto.
Qed.

Lemma result_at_lt items padding j r :
  result_at items padding j = Some r -> j < length items.
Proof.
  intros Hr. apply result_at_Some in Hr as (targFile & c & Hj & _).
  eapply lookup_lt_Some. exact Hj.
Qed.

(** The load event of such an image writes its file and resolves its
    promise. *)
Lemma onload_fulfils items padding st j r :
  result_at items padding j = Some r ->
  exists w,
    write_at items padding j = Some w /\
    onload items padding st j = (fst st ++ [w], all_fulfil j r (snd st)).
Proof.
  intros Hr.
  apply result_at_Some in Hr as (targFile & c & Hj & Herr & -> & Hw).
  exists (crop_write c targFile padding). split; [exact Hw|].
  unfold onload. rewrite Hj, trimCanvas_eq, Herr. reflexivity.
Qed.

(** Any other load event changes nothing: there is no such image, its
    promise was rejected from the start, or its handler throws. *)
Lemma onload_skips items padding st j :
  result_at items padding j = None ->
  write_at items padding j = None /\ onload items padding st j = st.
Proof.
  unfold result_at, write_at, onload.
  destruct (items !! j) as [[e|targFile c]|]; try (split; reflexivity).
  cbn [mbind option_bind item_result item_write]. rewrite trimCanvas_eq.
  destruct (crop_error c padding); [split; reflexivity | discriminate].
Qed.

Lemma distinct_below (l : list nat) (n : nat) :
  NoDup l -> (forall j, j ∈ l -> j < n) -> length l <= n.
Proof.
  intros Hnd Hlt.
  transitivity (length (seq 0 n)); [|rewrite length_seq; lia].
  apply submseteq_length, NoDup_submseteq; [assumption|].
  intros j Hj. apply elem_of_seq. specialize (Hlt j Hj). lia.
Qed.

Lemma omap_length_filter {A} (g : nat -> option A) (P : nat -> Prop)
    `{!forall j, Decision (P j)} (l : list nat) :
  (forall j a, g j = Some a -> P j) ->
  length (omap g l) <= length (filter P l).
Proof.
  intros HP. induction l as [|j l IH]; [reflexivity|].
  rewrite filter_cons. cbn [omap list_omap].
  destruct (g j) as [a|] eqn:Hg.
  - rewrite decide_True by (eapply HP; exact Hg). cbn [length]. lia.
  - destruct (decide (P j)); cbn [length]; lia.
Qed.

Lemma omap_length_le {A} (g : nat -> option A) (l : list nat) :
  length (omap g l) <= length l.
Proof.
  induction l as [|j l IH]; [reflexivity|]. cbn [omap list_omap].
  destruct (g j); cbn [length]; lia.
Qed.

(** No more promises are fulfilled than there are images, and fewer when
    one of the images gives no record. *)
Lemma fulfilled_le {A} (g : nat -> option A) (l : list nat) (n : nat) :
  NoDup l -> (forall j a, g j = Some a -> j < n) -> length (omap g l) <= n.
Proof.
  intros Hnd Hlt.
  etransitivity; [apply (omap_length_filter g (fun j => j < n)); exact Hlt|].
  apply distinct_below; [apply NoDup_filter; exact Hnd|].
  intros j Hj. apply list_elem_of_filter in Hj. apply Hj.
Qed.



Lemma tracks_start items padding :
  0 < length items ->
  tracks items padding []
    ([], reject_all items (all_init (length items))).
Proof.
  intros Hn.
  destruct (reject_all_values items (all_init (length items))) as [Hv Hr].
  constructor; cbn [fst snd].
  - rewrite Hv. cbn. apply length_replicate.
  - intros j Hj. rewrite Hv. cbn. rewrite lookup_replicate_2 by assumption.
    reflexivity.
  - rewrite Hr. cbn. lia.
  - reflexivity.
  - rewrite reject_all_settled by reflexivity.
    destruct (first_error items); [reflexivity|].
    cbn. destruct (decide (0 < length items)); [reflexivity | lia].
Qed.

Lemma tracks_step items padding done st i :
  tracks items padding done st -> NoDup (done ++ [i]) ->
  tracks items padding (done ++ [i]) (onload items padding st i).
Proof.
  intros [Hlen Hvals Hrem Hdisk Hset] Hnd.
  pose proof (fulfilled_le (result_at items padding) (done ++ [i])
                (length items) Hnd (result_at_lt items padding)) as Hcount.
  rewrite omap_app, length_app in Hcount.
  apply NoDup_app in Hnd as (Hnd & Hfresh & _).
  assert (Hni : i ∉ done).
  { intros Hc. apply (Hfresh i Hc). apply list_elem_of_singleton. reflexivity. }
  assert (Hother : forall j, j <> i ->
    (if decide (j ∈ done ++ [i]) then result_at items padding j else None) =
    (if decide (j ∈ done) then result_at items padding j else None)).
  { intros j Hne. destruct (decide (j ∈ done)) as [Hj|Hj].
    - rewrite decide_True by (apply elem_of_app; auto). reflexivity.
    - rewrite decide_False; [reflexivity|].
      intros Hc. apply elem_of_app in Hc as [Hc|Hc]; [auto|].
      apply list_elem_of_singleton in Hc. auto. }
  assert (Hi : i ∈ done ++ [i])
    by (apply elem_of_app; right; apply list_elem_of_singleton; reflexivity).
  destruct st as [d s]. cbn [fst snd] in *.
  destruct (result_at items padding i) as [r|] eqn:Hr.
  - destruct (onload_fulfils items padding (d, s) i r Hr) as (w & Hw & ->).
    pose proof (result_at_lt items padding i r Hr) as Hin.
    change (omap (result_at items padding) [i])
      with (match result_at items padding i with
            | Some r => [r] | None => [] end) in *.
    rewrite Hr in *. cbn [length] in Hcount.
    constructor; cbn [fst snd all_fulfil all.values all.remaining all.settled].
    + rewrite length_insert. assumption.
    + intros j Hj. destruct (decide (j = i)) as [->|Hne].
      * rewrite list_lookup_insert_eq by lia.
        rewrite decide_True by exact Hi. rewrite Hr. reflexivity.
      * rewrite list_lookup_insert_ne by auto. rewrite Hvals by assumption.
        rewrite Hother by exact Hne. reflexivity.
    + rewrite omap_app, length_app.
      change (omap (result_at items padding) [i])
        with (match result_at items padding i with
              | Some r => [r] | None => [] end).
      rewrite Hr. cbn [length]. lia.
    + rewrite Hdisk, omap_app. f_equal.
      change (omap (write_at items padding) [i])
        with (match write_at items padding i with
              | Some w => [w] | None => [] end).
      rewrite Hw. reflexivity.
    + rewrite Hset. destruct (first_error items); [reflexivity|].
      rewrite decide_True by lia. rewrite omap_app, length_app.
      change (omap (result_at items padding) [i])
        with (match result_at items padding i with
              | Some r => [r] | None => [] end).
      rewrite Hr. cbn [length].
      destruct (Nat.eqb_spec (pred (all.remaining s)) 0).
      * rewrite decide_False by lia. reflexivity.
      * rewrite decide_True by lia. reflexivity.
  - destruct (onload_skips items padding (d, s) i Hr) as [Hw ->].
    assert (Hsame :
      omap (result_at items padding) (done ++ [i]) =
        omap (result_at items padding) done).
    { rewrite omap_app.
      change (omap (result_at items padding) [i])
        with (match result_at items padding i with
              | Some r => [r] | None => [] end).
      rewrite Hr. apply app_nil_r. }
    constructor; cbn [fst snd]; rewrite ?Hsame.
    + assumption.
    + intros j Hj. rewrite Hvals by assumption. f_equal.
      destruct (decide (j = i)) as [->|Hne].
      * rewrite decide_False by exact Hni. rewrite decide_True by exact Hi.
        symmetry. exact Hr.
      * symmetry. apply Hother. exact Hne.
    + assumption.
    + rewrite Hdisk, omap_app.
      change (omap (write_at items padding) [i])
        with (match write_at items padding i with
              | Some w => [w] | None => [] end).
      rewrite Hw. symmetry. apply app_nil_r.
    + assumption.
Qed.

Lemma tracks_loads items padding loads : forall done st,
  tracks items padding done st -> NoDup (done ++ loads) ->
  tracks items padding (done ++ loads)
    (fold_left (onload items padding) loads st).
Proof.
  induction loads as [|i loads IH]; intros done st Htr Hnd.
  - rewrite app_nil_r. exact Htr.
  - cbn [fold_left].
    replace (done ++ i :: loads) with ((done ++ [i]) ++ loads) in *
      by (rewrite <- app_assoc; reflexivity).
    apply IH; [|assumption].
    apply tracks_step; [assumption|].
    apply NoDup_app in Hnd as (Hnd & _ & _). exact Hnd.
Qed.

Lemma trim_nonempty f paths padding loads :
  candidates f paths <> [] ->
  trim f paths padding loads =
    (world.mk (fst (final_state f paths padding loads))
       (if isNaN (coerce_padding padding) then [not_a_number] else []),
     all.settled (snd (final_state f paths padding loads))).
Proof.
  intros Hne. unfold trim, final_state.
  destruct (candidates f paths) as [|targFile rest]; [congruence|].
  cbn [length Nat.eqb]. destruct (fold_left _ _ _). reflexivity.
Qed.

Lemma trim_empty f paths padding loads :
  candidates f paths = [] ->
  trim f paths padding loads =
    (world.mk [] (if isNaN (coerce_padding padding) then [not_a_number] else []),
     Fulfilled []).
Proof. intros Hnil. unfold trim. rewrite Hnil. reflexivity. Qed.

(** The invariant holds of the state [trim] ends in. *)
Lemma tracks_final f paths padding loads :
  candidates f paths <> [] -> NoDup loads ->
  tracks (trimItem f <$> candidates f paths) (coerce_padding padding) loads
    (final_state f paths padding loads).
Proof.
  intros Hne Hnd. unfold final_state.
  apply (tracks_loads _ _ loads []); [|exact Hnd].
  apply tracks_start. rewrite length_fmap.
  destruct (candidates f paths); [congruence | cbn; lia].
Qed.




Lemma first_error_loading items :
  (forall j, j < length items -> is_loading items j) ->
  first_error items = None.
Proof.
  induction items as [|[e|targFile c] items IH]; intros Hall;
    [reflexivity | |].
  - destruct (Hall 0) as (? & ? & Hc); [cbn; lia | discriminate].
  - cbn. apply IH. intros j Hj. apply (Hall (S j)). cbn. lia.
Qed.









(** ** A failing pipeline *)

Lemma onload_rejected items padding e st i :
  all.settled (snd st) = Rejected e ->
  all.settled (snd (onload items padding st i)) = Rejected e.
Proof.
  intros Hs. unfold onload.
  destruct (items !! i) as [[e'|targFile c]|]; try assumption.
  destruct (trimCanvas c targFile padding (fst st)) as [?|[d r]];
    [assumption|].
  cbn. rewrite Hs. reflexivity.
Qed.

Lemma loads_rejected items padding e loads : forall st,
  all.settled (snd st) = Rejected e ->
  all.settled (snd (fold_left (onload items padding) loads st)) = Rejected e.
Proof.
  induction loads as [|i loads IH]; intros st Hs; [exact Hs|].
  cbn [fold_left]. apply IH. apply onload_rejected. exact Hs.
Qed.


(** ** The theorems at work on the small file system *)


Lemma example_readable :
  candidates example_files (Many ["/e.png"; "/nope.png"; "/d/a.png"]) =
    ["/e.png"; "/d/a.png"].
Proof. vm_compute. reflexivity. Defined.




(** * Further properties of the program *)

Local Open Scope Z_scope.

(** ** [clamp] and [isBetween] on their own *)

Lemma isBetween_int (v min max : Z) :
  isBetween (Num (Int v)) (Num (Int min)) (Num (Int max)) =
    (min <=? v) && (v <=? max).
Proof.
  unfold isBetween, greater_eq, less_eq. cbn.
  destruct (Z.eqb_spec min 0), (Z.eqb_spec max 0); reflexivity.
Qed.

(** On integers with [min <= max], [clamp] returns an integer of
    [[min, max]], leaves a value of that range alone, and clamping twice is
    clamping once. *)
Theorem clamp_in_range (v min max : Z) :
  min <= max ->
  exists r : Z,
    clamp (Num (Int v)) (Num (Int min)) (Num (Int max)) = Num (Int r)
    /\ r = Z.max min (Z.min v max)
    /\ min <= r <= max
    /\ (min <= v <= max -> r = v)
    /\ clamp (Num (Int r)) (Num (Int min)) (Num (Int max)) = Num (Int r).
Proof.
  intros Hle. exists (Z.max min (Z.min v max)).
  assert (Hclamp : forall w,
    clamp (Num (Int w)) (Num (Int min)) (Num (Int max)) =
      Num (Int (Z.max min (Z.min w max)))).
  { intros w. unfold clamp. rewrite isBetween_int. unfold less, greater. cbn.
    destruct (Z.leb_spec min w), (Z.leb_spec w max), (Z.ltb_spec w min),
      (Z.ltb_spec max w); cbn; try lia; do 2 f_equal; lia. }
  split; [apply Hclamp|]. split; [reflexivity|]. split; [lia|].
  split; [lia|]. rewrite Hclamp. do 2 f_equal. lia.
Qed.

Lemma clamp_in_range_example :
  3 <= 7 /\ clamp (Num (Int 12)) (Num (Int 3)) (Num (Int 7)) = Num (Int 7).
Proof.
  assert (Hle : 3 <= 7) by lia. split; [exact Hle|].
  destruct (clamp_in_range 12 3 7 Hle) as (r & -> & -> & _). reflexivity.
Defined.

(** On integers [clamp] always returns a number, one of its three
    arguments, also when [min] and [max] are the wrong way round (then it
    answers [min] below [min] and [max] from [min] on). *)
Theorem clamp_int_never_undefined (v min max : Z) :
  exists r : Z,
    clamp (Num (Int v)) (Num (Int min)) (Num (Int max)) = Num (Int r)
    /\ (r = v \/ r = min \/ r = max)
    /\ (max < min -> r = if v <? min then min else max).
Proof.
  unfold clamp. rewrite isBetween_int. unfold less, greater. cbn.
  destruct (Z.leb_spec min v), (Z.leb_spec v max), (Z.ltb_spec v min),
    (Z.ltb_spec max v); cbn; try lia; eexists; (split; [reflexivity|]);
    split; auto; intros; lia.
Qed.

Lemma isBetween_missing_min value min max :
  missing min -> isBetween value min max = false.
Proof. unfold isBetween. intros [-> | [-> | ->]]; reflexivity. Qed.

Lemma isBetween_missing_max value min max :
  missing max -> isBetween value min max = false.
Proof.
  unfold isBetween. intros [-> | [-> | ->]]; cbn; rewrite orb_true_r;
    reflexivity.
Qed.

(** A bound that is [null], [undefined] or [NaN] makes [isBetween] answer
    [false], whatever the value. *)
Theorem isBetween_missing_bound value min max :
  missing min \/ missing max -> isBetween value min max = false.
Proof.
  intros [Hmin | Hmax].
  - apply isBetween_missing_min. exact Hmin.
  - apply isBetween_missing_max. exact Hmax.
Qed.

Lemma isBetween_missing_bound_example :
  (missing Null \/ missing (Num (Int 10))) /\
  isBetween (Num (Int 5)) Null (Num (Int 10)) = false.
Proof.
  assert (Hm : missing Null \/ missing (Num (Int 10)))
    by (left; left; reflexivity).
  split; [exact Hm|].
  exact (isBetween_missing_bound (Num (Int 5)) Null (Num (Int 10)) Hm).
Defined.

(** With a [null] minimum, [clamp] answers [null] below [0], [max] above
    [max], and [undefined] for every value from [0] to [max]. *)
Theorem clamp_null_min (v max : Z) :
  clamp (Num (Int v)) Null (Num (Int max)) =
    if v <? 0 then Null
    else if max <? v then Num (Int max)
    else Undefined.
Proof.
  unfold clamp.
  rewrite isBetween_missing_min by (left; reflexivity).
  unfold less, greater. cbn. reflexivity.
Qed.

(** ** The crop box and the pixels *)

Lemma scan_cases c :
  canvas_ok c ->
  (scan c = initial_bound /\ forall x y, relevant c x y = false) \/
  (exists t l r b : Z,
     scan c = bound.mk (Num (Int t)) (Num (Int l)) (Num (Int r)) (Num (Int b))
     /\ topmost c t /\ leftmost c l /\ rightmost c r /\ bottommost c b).
Proof.
  intros Hok.
  destruct (scan_scanned c Hok) as [Hnone | t l r b Ht Hl Hr Hb].
  - left. split; [reflexivity|]. intros x y.
    destruct (relevant c x y) eqn:Hrel; [|reflexivity].
    destruct (relevant_seen c Hok x y Hrel) as [[Hj Hs] _].
    rewrite (Hnone _ Hj) in Hs. discriminate.
  - right. exists t, l, r, b. split; [reflexivity|].
    auto using least_row_topmost, least_col_leftmost, greatest_col_rightmost,
      greatest_row_bottommost.
Qed.

(** With a padding of at least one pixel no pixel is lost: every pixel
    that is not fully transparent lies in the rectangle the program cuts
    out, columns [left <= x < right] and rows [top <= y < bottom]. *)
Theorem padding_keeps_every_pixel c (p : Z) :
  canvas_ok c -> 1 <= p ->
  exists t l r b : Z,
    crop_bound c (Num (Int p)) =
      bound.mk (Num (Int t)) (Num (Int l)) (Num (Int r)) (Num (Int b))
    /\ forall x y, relevant c x y = true ->
         (l <= x /\ x < r) /\ (t <= y /\ y < b).
Proof.
  intros Hok Hp.
  pose proof (ok_width c Hok) as HW. pose proof (ok_height c Hok) as HH.
  rewrite crop_bound_apply.
  destruct (scan_cases c Hok)
    as [[-> Hnone] | (t & l & r & b & -> & Ht & Hl & Hr & Hb)].
  - rewrite apply_padding_null by lia. eexists _, _, _, _.
    split; [reflexivity|]. intros x y Hrel. rewrite Hnone in Hrel.
    discriminate.
  - rewrite apply_padding_int by lia. eexists _, _, _, _.
    split; [reflexivity|]. intros x y Hrel.
    pose proof (relevant_on_canvas c x y Hrel) as [Hx Hy].
    pose proof (proj2 Ht x y Hrel). pose proof (proj2 Hl x y Hrel).
    pose proof (proj2 Hr x y Hrel). pose proof (proj2 Hb x y Hrel).
    unfold clamp_to. lia.
Qed.

Lemma padding_keeps_every_pixel_small_square :
  canvas_ok small_square /\ 1 <= 1 /\
  exists t l r b : Z,
    crop_bound small_square (Num (Int 1)) =
      bound.mk (Num (Int t)) (Num (Int l)) (Num (Int r)) (Num (Int b))
    /\ forall x y, relevant small_square x y = true ->
         (l <= x /\ x < r) /\ (t <= y /\ y < b).
Proof.
  assert (Hp : 1 <= 1) by lia.
  split; [exact small_square_ok|]. split; [exact Hp|].
  exact (padding_keeps_every_pixel small_square 1 small_square_ok Hp).
Defined.

(** The crop box of a canvas for a padding [q >= 0], from one box
    [(t, l, r, b)] that is either the scanned one or, when the scan found
    nothing, all zeros. *)
Lemma crop_bound_from_scan c :
  canvas_ok c ->
  exists t l r b : Z,
    (0 <= l /\ l <= r /\ r < canvas.width c)
    /\ (0 <= t /\ t <= b /\ b < canvas.height c)
    /\ forall q : Z,
         crop_bound c (Num (Int q)) =
           bound.mk (Num (Int (clamp_to (canvas.height c) (t - q))))
             (Num (Int (clamp_to (canvas.width c) (l - q))))
             (Num (Int (clamp_to (canvas.width c) (r + q))))
             (Num (Int (clamp_to (canvas.height c) (b + q)))).
Proof.
  intros Hok.
  pose proof (ok_width c Hok) as HW. pose proof (ok_height c Hok) as HH.
  destruct (scan_cases c Hok) as [[Hs Hnone] | (t & l & r & b & Hs & Hrest)].
  - exists 0, 0, 0, 0. split; [lia|]. split; [lia|].
    intros q. rewrite crop_bound_apply, Hs. apply apply_padding_null; lia.
  - destruct Hrest as ([[xt Hxt] Ht] & [[yl Hyl] Hl] & [[yr Hyr] Hr]
                       & [[xb Hxb] Hb]).
    pose proof (Hl _ _ Hyr). pose proof (Ht _ _ Hxb).
    pose proof (relevant_on_canvas _ _ _ Hyl).
    pose proof (relevant_on_canvas _ _ _ Hyr).
    pose proof (relevant_on_canvas _ _ _ Hxt).
    pose proof (relevant_on_canvas _ _ _ Hxb).
    exists t, l, r, b. split; [lia|]. split; [lia|].
    intros q. rewrite crop_bound_apply, Hs. apply apply_padding_int; lia.
Qed.

(** For a padding [p >= 0] every number of a returned record is an
    integer that makes sense: the four edge distances are not negative
    and not larger than the original size, and the crop is at least one
    pixel and at most the original size in width and in height. *)
Theorem result_within_canvas c filepath (p : Z) d d' res :
  canvas_ok c -> 0 <= p ->
  trimCanvas c filepath (Num (Int p)) d = inr (d', res) ->
  exists left top right bottom width height : Z,
    result.left res = Num (Int left) /\ result.top res = Num (Int top)
    /\ result.right res = Num (Int right)
    /\ result.bottom res = Num (Int bottom)
    /\ result.width res = Num (Int width)
    /\ result.height res = Num (Int height)
    /\ 0 <= left <= canvas.width c /\ 0 <= right <= canvas.width c
    /\ 0 <= top <= canvas.height c /\ 0 <= bottom <= canvas.height c
    /\ 1 <= width <= canvas.width c /\ 1 <= height <= canvas.height c.
Proof.
  intros Hok Hp Hret.
  destruct (crop_bound_from_scan c Hok) as (t & l & r & b & Hx & Hy & Hcrop).
  rewrite (trimCanvas_box c filepath _ d _ _ _ _ Hok (Hcrop p)) in Hret
    by (unfold clamp_to; lia).
  destruct (Z.eqb_spec
              (clamp_to (canvas.width c) (r + p)
               - clamp_to (canvas.width c) (l - p)) 0) as [|Hw];
    [discriminate|].
  destruct (Z.eqb_spec
              (clamp_to (canvas.height c) (b + p)
               - clamp_to (canvas.height c) (t - p)) 0) as [|Hh];
    [discriminate|].
  injection Hret as _ <-.
  cbn [result.left result.top result.right result.bottom result.width
       result.height].
  eexists _, _, _, _, _, _. repeat (split; [reflexivity|]).
  unfold clamp_to in *. lia.
Qed.

Lemma result_within_canvas_small_square :
  canvas_ok small_square /\ 0 <= 5 /\
  exists d res,
    trimCanvas small_square "/e.png" (Num (Int 5)) [] = inr (d, res) /\
    exists width height : Z,
      result.width res = Num (Int width)
      /\ result.height res = Num (Int height)
      /\ 1 <= width <= canvas.width small_square
      /\ 1 <= height <= canvas.height small_square.
Proof.
  assert (Hp : 0 <= 5) by lia.
  split; [exact small_square_ok|]. split; [exact Hp|].
  destruct (trimCanvas small_square "/e.png" (Num (Int 5)) [])
    as [e|[d res]] eqn:Hret; [vm_compute in Hret; discriminate Hret|].
  exists d, res. split; [reflexivity|].
  destruct (result_within_canvas small_square "/e.png" 5 [] d res
              small_square_ok Hp Hret)
    as (l & t & r & b & w & h & _ & _ & _ & _ & Hw & Hh & _ & _ & _ & _ & Hwr
        & Hhr).
  exists w, h. split; [exact Hw|]. split; [exact Hh|].
  split; [exact Hwr | exact Hhr].
Defined.

(** An integer padding that fits into the transparent margin on every
    side moves each edge by exactly that many pixels: where the program
    returns a record for padding [0], it returns one for the padding [p]
    too, with the edge distances [p] shorter and the crop [2 * p] larger in
    width and in height. *)
Theorem padding_extends_each_side c filepath (p left top right bottom : Z)
    d d0 res0 :
  canvas_ok c ->
  trimCanvas c filepath (Num (Int 0)) d = inr (d0, res0) ->
  result.left res0 = Num (Int left) -> result.top res0 = Num (Int top) ->
  result.right res0 = Num (Int right) ->
  result.bottom res0 = Num (Int bottom) ->
  0 <= p -> p <= left -> p <= top -> p <= right -> p <= bottom ->
  exists d' res,
    trimCanvas c filepath (Num (Int p)) d = inr (d', res)
    /\ result.left res = Num (Int (left - p))
    /\ result.top res = Num (Int (top - p))
    /\ result.right res = Num (Int (right - p))
    /\ result.bottom res = Num (Int (bottom - p))
    /\ exists width height : Z,
         result.width res0 = Num (Int width)
         /\ result.height res0 = Num (Int height)
         /\ result.width res = Num (Int (width + 2 * p))
         /\ result.height res = Num (Int (height + 2 * p)).
Proof.
  intros Hok Hret0.
  destruct (crop_bound_from_scan c Hok) as (t & l & r & b & Hx & Hy & Hcrop).
  assert (Hin : forall m v, 0 <= v <= m -> clamp_to m v = v)
    by (intros m v Hv; unfold clamp_to; lia).
  pose proof (Hcrop 0) as Hcrop0.
  rewrite !Z.sub_0_r, !Z.add_0_r in Hcrop0.
  rewrite (Hin _ l), (Hin _ r), (Hin _ t), (Hin _ b) in Hcrop0 by lia.
  rewrite (trimCanvas_box c filepath _ d _ _ _ _ Hok Hcrop0) in Hret0 by lia.
  destruct (Z.eqb_spec (r - l) 0) as [|Hw]; [discriminate|].
  destruct (Z.eqb_spec (b - t) 0) as [|Hh]; [discriminate|].
  injection Hret0 as _ <-.
  cbn [result.left result.top result.right result.bottom result.width
       result.height].
  intros Hl Ht Hr Hb Hp Hpl Hpt Hpr Hpb.
  injection Hl as Hl. injection Ht as Ht. injection Hr as Hr.
  injection Hb as Hb.
  pose proof (Hcrop p) as Hcropp.
  rewrite (Hin _ (l - p)), (Hin _ (r + p)), (Hin _ (t - p)), (Hin _ (b + p))
    in Hcropp by lia.
  rewrite (trimCanvas_box c filepath _ d _ _ _ _ Hok Hcropp) by lia.
  destruct (Z.eqb_spec (r + p - (l - p)) 0); [lia|].
  destruct (Z.eqb_spec (b + p - (t - p)) 0); [lia|].
  cbn [orb]. eexists _, _. split; [reflexivity|].
  cbn [result.left result.top result.right result.bottom result.width
       result.height].
  repeat split; try (do 2 f_equal; lia).
  eexists _, _. split; [reflexivity|]. split; [reflexivity|].
  split; do 2 f_equal; lia.
Qed.

Lemma padding_extends_each_side_small_square :
  canvas_ok small_square
  /\ exists d0 res0 d' res,
       trimCanvas small_square "/e.png" (Num (Int 0)) [] = inr (d0, res0)
       /\ trimCanvas small_square "/e.png" (Num (Int 1)) [] = inr (d', res)
       /\ result.left res0 = Num (Int 1)
       /\ result.left res = Num (Int (1 - 1))
       /\ exists width height : Z,
            result.width res0 = Num (Int width)
            /\ result.height res0 = Num (Int height)
            /\ result.width res = Num (Int (width + 2 * 1))
            /\ result.height res = Num (Int (height + 2 * 1)).
Proof.
  split; [exact small_square_ok|].
  destruct (trimCanvas small_square "/e.png" (Num (Int 0)) [])
    as [e|[d0 res0]] eqn:Hret0; [vm_compute in Hret0; discriminate Hret0|].
  assert (Hl : result.left res0 = Num (Int 1))
    by (vm_compute in Hret0; injection Hret0 as _ <-; reflexivity).
  assert (Ht : result.top res0 = Num (Int 1))
    by (vm_compute in Hret0; injection Hret0 as _ <-; reflexivity).
  assert (Hr : result.right res0 = Num (Int 2))
    by (vm_compute in Hret0; injection Hret0 as _ <-; reflexivity).
  assert (Hb : result.bottom res0 = Num (Int 1))
    by (vm_compute in Hret0; injection Hret0 as _ <-; reflexivity).
  destruct (padding_extends_each_side small_square "/e.png" 1 1 1 2 1 []
              d0 res0 small_square_ok Hret0 Hl Ht Hr Hb)
    as (d' & res & Hret & Hl1 & _ & _ & _ & Hsize); try lia.
  exists d0, res0, d', res.
  split; [reflexivity|]. split; [exact Hret|]. split; [exact Hl|].
  split; [exact Hl1 | exact Hsize].
Defined.

(** ** The scan reads nothing but the alpha samples *)

Lemma scan_body_same_alpha c c' b (k : Z) :
  canvas.width c = canvas.width c' ->
  alpha_nonzero (canvas.data c) (4 * k) = alpha_nonzero (canvas.data c') (4 * k) ->
  scan_body c b (4 * k) = scan_body c' b (4 * k).
Proof.
  intros Hw Ha. unfold scan_body, pixel_x, pixel_y. rewrite Ha, Hw.
  reflexivity.
Qed.

Lemma scan_loop_same_alpha c c' l fuel : forall (k : Z) b,
  canvas.width c = canvas.width c' ->
  (forall j : Z, 0 <= j ->
     alpha_nonzero (canvas.data c) (4 * j) =
       alpha_nonzero (canvas.data c') (4 * j)) ->
  0 <= k ->
  scan_loop fuel c l (4 * k) b = scan_loop fuel c' l (4 * k) b.
Proof.
  induction fuel as [|fuel IH]; intros k b Hw Ha Hk; [reflexivity|].
  cbn [scan_loop]. destruct (4 * k <? l); [|reflexivity].
  rewrite (scan_body_same_alpha c c' b k Hw (Ha k Hk)).
  replace (4 * k + 4) with (4 * (k + 1)) by lia.
  apply IH; [assumption | assumption | lia].
Qed.

(** Two canvases of the same size whose alpha samples agree give the same
    bounds and the same crop box, whatever their colour samples are. *)
Theorem scan_ignores_colour c c' :
  canvas.width c = canvas.width c' -> canvas.height c = canvas.height c' ->
  length (canvas.data c) = length (canvas.data c') ->
  (forall n : nat, (n mod 4 = 3)%nat ->
     canvas.data c !! n = canvas.data c' !! n) ->
  scan c = scan c' /\
  forall padding, crop_bound c padding = crop_bound c' padding.
Proof.
  intros Hw Hh Hlen Hdata.
  assert (Hscan : scan c = scan c').
  { unfold scan. rewrite Hlen.
    apply (scan_loop_same_alpha c c' _ _ 0 initial_bound Hw); [|lia].
    intros j Hj. unfold alpha_nonzero. rewrite Hdata; [reflexivity|].
    replace (Z.to_nat (4 * j + 3)) with (4 * Z.to_nat j + 3)%nat by lia.
    rewrite Nat.add_comm, Nat.mul_comm, Nat.Div0.mod_add. reflexivity. }
  split; [exact Hscan|]. intros padding. unfold crop_bound. rewrite Hscan.
  unfold clamp_bound. rewrite Hw, Hh. reflexivity.
Qed.

Lemma repaint_same_alpha rgb c (n : nat) :
  (n mod 4 = 3)%nat ->
  canvas.data c !! n = canvas.data (repaint rgb c) !! n.
Proof.
  intros Hn. unfold repaint. cbn [canvas.data].
  rewrite list_lookup_imap. destruct (canvas.data c !! n); [|reflexivity].
  cbn [fmap option_fmap option_map]. rewrite Hn. reflexivity.
Defined.

Lemma scan_ignores_colour_small_square :
  canvas.data small_square !! 0%nat = Some x00
  /\ canvas.data (repaint xff small_square) !! 0%nat = Some xff
  /\ scan small_square = scan (repaint xff small_square).
Proof.
  split; [reflexivity|]. split; [reflexivity|].
  pose proof (scan_ignores_colour small_square (repaint xff small_square))
    as Hsame.
  specialize (Hsame eq_refl). specialize (Hsame eq_refl).
  specialize (Hsame eq_refl).
  specialize (Hsame (repaint_same_alpha xff small_square)).
  exact (proj1 Hsame).
Defined.

Local Close Scope Z_scope.

(** ** The names in the record *)

Lemma substring_all (s : string) : String.substring 0 (String.length s) s = s.
Proof. induction s as [|a s IH]; [reflexivity|]. cbn. rewrite IH. reflexivity. Qed.

Lemma append_cons a (s t : string) :
  (String a s ++ t)%string = String a (s ++ t)%string.
Proof. reflexivity. Qed.

Lemma substring_split (s : string) : forall k,
  k <= String.length s ->
  (String.substring 0 k s
     ++ String.substring k (String.length s - k) s)%string = s.
Proof.
  induction s as [|a s IH]; intros k Hk.
  - destruct k; [reflexivity | cbn in Hk; lia].
  - destruct k as [|k].
    + rewrite Nat.sub_0_r. apply (substring_all (String a s)).
    + cbn in Hk. cbn [String.substring String.length Nat.sub].
      rewrite append_cons, IH by lia. reflexivity.
Qed.

Lemma strip_png_append (s : string) :
  ends_with_png s = true -> (strip_png s ++ ".png")%string = s.
Proof.
  intros Hpng. unfold strip_png. rewrite Hpng. unfold ends_with_png in Hpng.
  apply andb_prop in Hpng as [Hlen Heq].
  apply Nat.leb_le in Hlen. apply String.eqb_eq in Heq.
  pose proof (substring_split s (String.length s - 4)) as Hsplit.
  replace (String.length s - (String.length s - 4)) with 4 in Hsplit by lia.
  rewrite Heq in Hsplit. apply Hsplit. lia.
Qed.

Lemma ends_with_png_cons a (r : string) :
  4 <= String.length r -> ends_with_png (String a r) = ends_with_png r.
Proof.
  intros Hlen. unfold ends_with_png. cbn [String.length].
  replace (S (String.length r) - 4) with (S (String.length r - 4)) by lia.
  cbn [String.substring].
  replace (4 <=? S (String.length r)) with true
    by (symmetry; apply Nat.leb_le; lia).
  replace (4 <=? String.length r) with true
    by (symmetry; apply Nat.leb_le; lia).
  reflexivity.
Qed.

Lemma ends_with_png_short a (r : string) :
  String.length r < 4 -> ends_with_png (String a r) = true ->
  has_separator (String a r) = false.
Proof.
  intros Hlen Hpng. unfold ends_with_png in Hpng.
  apply andb_prop in Hpng as [Hn Heq]. apply Nat.leb_le in Hn.
  destruct r as [|b [|c [|d [|e r]]]]; cbn [String.length] in Hlen, Hn;
    try lia.
  cbn [String.length Nat.sub String.substring] in Heq.
  apply String.eqb_eq in Heq. injection Heq as -> -> -> ->. reflexivity.
Qed.

Lemma last_segment_png (s : string) :
  ends_with_png s = true -> ends_with_png (last_segment s) = true.
Proof.
  induction s as [|a r IH]; intros Hpng; [discriminate|].
  cbn [last_segment].
  destruct (Nat.le_gt_cases 4 (String.length r)) as [Hlen|Hlen].
  - destruct (is_separator a || has_separator r); [|exact Hpng].
    apply IH. rewrite <- (ends_with_png_cons a r Hlen). exact Hpng.
  - pose proof (ends_with_png_short a r Hlen Hpng) as Hsep.
    cbn [has_separator] in Hsep. rewrite Hsep. exact Hpng.
Qed.

Lemma last_segment_no_separator (s : string) :
  has_separator (last_segment s) = false.
Proof.
  induction s as [|a r IH]; [reflexivity|]. cbn [last_segment].
  destruct (is_separator a || has_separator r) eqn:Hsep; [exact IH|].
  exact Hsep.
Qed.

Lemma last_segment_suffix (s : string) :
  exists dir, s = (dir ++ last_segment s)%string.
Proof.
  induction s as [|a r [dir IH]]; [exists ""%string; reflexivity|].
  cbn [last_segment]. destruct (is_separator a || has_separator r).
  - exists (String a dir). rewrite append_cons, <- IH. reflexivity.
  - exists ""%string. reflexivity.
Qed.

(** For a path that ends in [.png], as all paths [trim] works on do, the
    [fullName] of a returned record is its [name] followed by [.png],
    contains no [/] or [\], and is what the path ends with. *)
Theorem result_names c filepath padding d d' res :
  ends_with_png filepath = true ->
  trimCanvas c filepath padding d = inr (d', res) ->
  (result.name res ++ ".png")%string = result.fullName res
  /\ has_separator (result.fullName res) = false
  /\ (exists dir, filepath = (dir ++ result.fullName res)%string)
  /\ result.path res = filepath.
Proof.
  intros Hpng Hret. rewrite trimCanvas_eq in Hret.
  destruct (crop_error c padding); [discriminate|].
  injection Hret as _ <-.
  cbn [crop_result result.name result.fullName result.path].
  split; [apply strip_png_append, last_segment_png; exact Hpng|].
  split; [apply last_segment_no_separator|].
  split; [apply last_segment_suffix | reflexivity].
Qed.

Lemma result_names_example :
  ends_with_png "C:/Users/test\fileA.png" = true
  /\ exists d res,
       trimCanvas small_square "C:/Users/test\fileA.png" (Num (Int 0)) [] =
         inr (d, res)
       /\ result.name res = "fileA"%string
       /\ result.fullName res = "fileA.png"%string
       /\ (result.name res ++ ".png")%string = result.fullName res.
Proof.
  assert (Hpng : ends_with_png "C:/Users/test\fileA.png" = true)
    by reflexivity.
  split; [exact Hpng|].
  destruct (trimCanvas small_square "C:/Users/test\fileA.png" (Num (Int 0)) [])
    as [e|[d res]] eqn:Hret; [vm_compute in Hret; discriminate Hret|].
  exists d, res. split; [reflexivity|].
  destruct (result_names small_square "C:/Users/test\fileA.png" (Num (Int 0))
              [] d res Hpng Hret) as (Hname & _ & _ & _).
  split; [vm_compute in Hret; injection Hret as _ <-; reflexivity|].
  split; [vm_compute in Hret; injection Hret as _ <-; reflexivity|].
  exact Hname.
Defined.

(** ** The list of files [trim] works on *)

Lemma candidates_as_array f paths :
  candidates f paths =
    List.filter ends_with_png
      (concat
         (map (fun item => if isFolder f item then readDir f item else [item])
            (List.filter (exists_ f) (as_array paths)))).
Proof. destruct paths; reflexivity. Qed.

Lemma candidates_In f paths (p : string) :
  In p (candidates f paths) <->
  ends_with_png p = true /\
  exists item,
    In item (as_array paths) /\ exists_ f item = true /\
    ((isFolder f item = false /\ p = item) \/
     (exists entries entry,
        f !! item = Some (Folder entries) /\ In entry entries /\
        p = (item ++ "/" ++ entry)%string)).
Proof.
  rewrite candidates_as_array, filter_In, in_concat.
  split.
  - intros [(l & Hl & Hp) Hpng]. split; [exact Hpng|].
    apply in_map_iff in Hl as (item & <- & Hitem).
    apply filter_In in Hitem as [Hitem Hex].
    exists item. split; [exact Hitem|]. split; [exact Hex|].
    destruct (isFolder f item) eqn:Hfolder.
    + right. unfold readDir in Hp. unfold isFolder in Hfolder.
      destruct (f !! item) as [[c|entries]|]; try discriminate.
      apply in_map_iff in Hp as (entry & <- & Hentry).
      exists entries, entry. auto.
    + left. destruct Hp as [<-|[]]. auto.
  - intros [Hpng (item & Hitem & Hex & Hcase)]. split; [|exact Hpng].
    exists (if isFolder f item then readDir f item else [item]). split.
    + apply in_map_iff. exists item. split; [reflexivity|].
      apply filter_In. auto.
    + destruct Hcase as [[-> ->] | (entries & entry & Hlook & Hentry & ->)].
      * left. reflexivity.
      * unfold isFolder, readDir. rewrite Hlook. apply in_map_iff.
        exists entry. auto.
Qed.

(** Which paths [trim] works on: those that end in [.png] and are either a
    path of the input that exists and is not a folder, or an entry of a
    folder of the input (one level, written [folder/entry]). *)
Theorem candidates_spec f paths (p : string) :
  p ∈ candidates f paths <->
  ends_with_png p = true /\
  exists item,
    item ∈ as_array paths /\ exists_ f item = true /\
    ((isFolder f item = false /\ p = item) \/
     (exists entries entry,
        f !! item = Some (Folder entries) /\ entry ∈ entries /\
        p = (item ++ "/" ++ entry)%string)).
Proof.
  rewrite list_elem_of_In, candidates_In. split.
  - intros [Hpng (item & Hitem & Hex & Hcase)]. split; [exact Hpng|].
    exists item. rewrite list_elem_of_In. split; [exact Hitem|].
    split; [exact Hex|].
    destruct Hcase as [Hfile | (entries & entry & Hlook & Hentry & Hp)];
      [left; exact Hfile | right].
    exists entries, entry. rewrite list_elem_of_In. auto.
  - intros [Hpng (item & Hitem & Hex & Hcase)]. split; [exact Hpng|].
    exists item. rewrite <- list_elem_of_In. split; [exact Hitem|].
    split; [exact Hex|].
    destruct Hcase as [Hfile | (entries & entry & Hlook & Hentry & Hp)];
      [left; exact Hfile | right].
    exists entries, entry. rewrite <- list_elem_of_In. auto.
Qed.

(** The list is built path by path: the list for two arrays in a row is
    the two lists in a row.  Nothing is reordered and a path given twice is
    worked on twice; a single path counts as the array of that path. *)
Theorem candidates_app f (items1 items2 : list string) (item : string) :
  candidates f (Many (items1 ++ items2)) =
    candidates f (Many items1) ++ candidates f (Many items2)
  /\ candidates f (One item) = candidates f (Many [item]).
Proof.
  split; [|reflexivity]. unfold candidates.
  rewrite List.filter_app, List.map_app, List.concat_app, List.filter_app.
  reflexivity.
Qed.

(** ** What [trim] writes and when it answers *)

Lemma onload_writes_items items padding st i (w : write.t) :
  w ∈ fst (onload items padding st i) ->
  w ∈ fst st \/
  exists j, items !! j = Some (Loading (write.target w) (write.source w)).
Proof.
  unfold onload. destruct (items !! i) as [[e|targFile c]|] eqn:Hi; auto.
  rewrite trimCanvas_eq. destruct (crop_error c padding); [auto|].
  cbn [fst]. intros Hw.
  apply elem_of_app in Hw as [Hw|Hw]; [auto|].
  apply list_elem_of_singleton in Hw. subst w. right. exists i. exact Hi.
Qed.

Lemma loads_write_items items padding loads (w : write.t) : forall st,
  w ∈ fst (fold_left (onload items padding) loads st) ->
  w ∈ fst st \/
  exists j, items !! j = Some (Loading (write.target w) (write.source w)).
Proof.
  induction loads as [|i loads IH]; intros st Hw; [auto|].
  cbn [fold_left] in Hw. destruct (IH _ Hw) as [Hst|Hj]; [|auto].
  apply onload_writes_items in Hst. exact Hst.
Qed.

(** The canvas [trimItem] makes of a file holds the pixels of that
    file. *)
Lemma trimItem_loading f targFile targFile' c :
  trimItem f targFile = Loading targFile' c ->
  targFile' = targFile
  /\ exists bytes, f !! targFile = Some (File bytes (canvas.data c)).
Proof.
  unfold trimItem, encodeAsBase64, readFileSync, drawImage.
  destruct (f !! targFile) as [[bytes pixels|entries]|]; try discriminate.
  destruct (getPngDimensions (toString_base64 bytes)) as [e|[width height]];
    [discriminate|].
  intros [= <- <-]. split; [reflexivity|]. exists bytes. reflexivity.
Qed.

(** Whatever load events arrive, [trim] overwrites only files of its
    filtered list, and each with a crop of the canvas made of that very
    file: no other path, no folder and no path it filtered out is
    written. *)
Theorem trim_writes_only_candidates f paths padding loads (w : write.t) :
  w ∈ world.written (fst (trim f paths padding loads)) ->
  write.target w ∈ candidates f paths
  /\ trimItem f (write.target w) = Loading (write.target w) (write.source w)
  /\ (exists bytes,
        f !! write.target w = Some (File bytes (canvas.data (write.source w))))
  /\ ends_with_png (write.target w) = true.
Proof.
  intros Hw.
  destruct (decide (candidates f paths = [])) as [Hnil|Hne].
  { rewrite (trim_empty f paths padding loads Hnil) in Hw. inversion Hw. }
  rewrite (trim_nonempty f paths padding loads Hne) in Hw.
  cbn [fst world.written] in Hw. unfold final_state in Hw.
  apply loads_write_items in Hw as [Hw | [j Hj]]; [inversion Hw|].
  rewrite list_lookup_fmap in Hj.
  destruct (candidates f paths !! j) as [targFile|] eqn:Hlook;
    [|discriminate].
  cbn in Hj. injection Hj as Hj.
  assert (Hin : targFile ∈ candidates f paths)
    by (eapply list_elem_of_lookup_2; exact Hlook).
  destruct (trimItem_loading f targFile _ _ Hj) as [Htarget Hfile].
  rewrite Htarget in *.
  split; [exact Hin|]. split; [exact Hj|]. split; [exact Hfile|].
  apply list_elem_of_In, candidates_In in Hin. apply Hin.
Qed.

Lemma trim_writes_only_candidates_example :
  crop_write small_square "/e.png" (Num (Int 0))
    ∈ world.written
        (fst (trim example_files (Many ["/e.png"; "/nope.png"; "/d"])
                (Num (Int 0)) [1; 0]))
  /\ "/e.png" ∈ candidates example_files (Many ["/e.png"; "/nope.png"; "/d"])
  /\ trimItem example_files "/e.png" = Loading "/e.png" small_square.
Proof.
  assert (Hw :
    crop_write small_square "/e.png" (Num (Int 0))
      ∈ world.written
          (fst (trim example_files (Many ["/e.png"; "/nope.png"; "/d"])
                  (Num (Int 0)) [1; 0])))
    by (vm_compute; right; left).
  split; [exact Hw|].
  destruct (trim_writes_only_candidates example_files
              (Many ["/e.png"; "/nope.png"; "/d"]) (Num (Int 0)) [1; 0]
              _ Hw) as (Hin & Hitem & _).
  split; [exact Hin | exact Hitem].
Defined.

(** While an image of the batch has not finished loading, the promise
    [trim] returned is still pending, unless a promise of the batch was
    rejected from the start: nothing is reported early. *)
Theorem trim_pending_until_loaded f paths padding loads :
  let list := candidates f paths in
  Forall (fun targFile => exists c, trimItem f targFile = Loading targFile c)
    list ->
  NoDup loads -> length loads < length list ->
  snd (trim f paths padding loads) = Pending.
Proof.
  intros list Hall Hnd Hfew.
  assert (Hne : candidates f paths <> []).
  { fold list. intros Hnil. rewrite Hnil in Hfew. cbn in Hfew. lia. }
  rewrite (trim_nonempty f paths padding loads Hne). cbn [snd].
  destruct (tracks_final f paths padding loads Hne Hnd) as [_ _ _ _ Hset].
  fold list in Hset. set (items := trimItem f <$> list) in *.
  assert (Hlen : length items = length list) by apply length_fmap.
  assert (Hnone : first_error items = None).
  { apply first_error_loading. intros j Hj. rewrite Hlen in Hj.
    destruct (lookup_lt_is_Some_2 list j Hj) as [targFile Hlook].
    rewrite Forall_lookup in Hall. destruct (Hall j targFile Hlook) as [c Hc].
    exists targFile, c. unfold items. rewrite list_lookup_fmap, Hlook. cbn.
    rewrite Hc. reflexivity. }
  rewrite Hset, Hnone.
  pose proof (omap_length_le (result_at items (coerce_padding padding)) loads).
  rewrite decide_True by lia. reflexivity.
Qed.

Lemma trim_pending_until_loaded_example :
  NoDup [1]
  /\ length [1] <
       length (candidates example_files
                 (Many ["/e.png"; "/nope.png"; "/d/a.png"]))
  /\ snd (trim example_files (Many ["/e.png"; "/nope.png"; "/d/a.png"])
            (Num (Int 0)) [1]) = Pending.
Proof.
  assert (Hnd : NoDup [1]) by apply NoDup_singleton.
  assert (Hfew :
    length [1] <
      length (candidates example_files
                (Many ["/e.png"; "/nope.png"; "/d/a.png"])))
    by (rewrite example_readable; cbn; lia).
  split; [exact Hnd|]. split; [exact Hfew|].
  apply (trim_pending_until_loaded example_files
           (Many ["/e.png"; "/nope.png"; "/d/a.png"]) (Num (Int 0)) [1]).
  - rewrite example_readable.
    repeat constructor; eexists; vm_compute; reflexivity.
  - exact Hnd.
  - exact Hfew.
Defined.

(** ** [encodeAsBase64] and [getPngDimensions] *)

Local Open Scope Z_scope.

Ltac divmod := Z.to_euclidean_division_equations; lia.

Lemma byte_value_range a : 0 <= byte_value a < 256.
Proof.
  unfold byte_value. pose proof (Byte.to_N_bounded a). lia.
Qed.

Lemma byte_of_value a : byte_of (byte_value a) = a.
Proof.
  pose proof (byte_value_range a) as Hr. unfold byte_of.
  rewrite Z.mod_small by lia. unfold byte_value.
  rewrite N2Z.id, Byte.of_to_N. reflexivity.
Qed.

Lemma byte_value_of z : byte_value (byte_of z) = z mod 256.
Proof.
  pose proof (Z.mod_pos_bound z 256 ltac:(lia)) as Hr. unfold byte_of.
  destruct (Byte.of_N (Z.to_N (z mod 256))) as [a|] eqn:Ha.
  - apply Byte.to_of_N in Ha. unfold byte_value. rewrite Ha. lia.
  - apply Byte.of_N_None_iff in Ha. lia.
Qed.

Lemma byte_of_eq z a : z = byte_value a -> byte_of z = a.
Proof. intros ->. apply byte_of_value. Qed.

(** The 64 characters of the alphabet, checked one by one. *)
Lemma alphabet_checked : forallb alphabet_ok (seq 0 64) = true.
Proof. vm_compute. reflexivity. Qed.

Lemma base64_char_ok s :
  sextet s ->
  base64_value (base64_char s) = Some s
  /\ is_whitespace (base64_char s) = false
  /\ base64_char s <> "="%char.
Proof.
  intros Hs. unfold sextet in Hs.
  pose proof alphabet_checked as Hall. rewrite forallb_forall in Hall.
  specialize (Hall (Z.to_nat s)).
  assert (Hin : In (Z.to_nat s) (seq 0 64)) by (apply in_seq; lia).
  apply Hall in Hin. unfold alphabet_ok in Hin.
  rewrite Z2Nat.id in Hin by lia.
  apply andb_prop in Hin as [Hin Heq]. apply andb_prop in Hin as [Hval Hws].
  destruct (base64_value (base64_char s)) as [m|]; [|discriminate].
  apply Z.eqb_eq in Hval. subst m.
  split; [reflexivity|]. split.
  - destruct (is_whitespace (base64_char s)); [discriminate | reflexivity].
  - intros Hc. rewrite Hc in Heq. discriminate.
Qed.

(** Induction on a list three elements at a time. *)
Lemma list_ind3 {A} (P : list A -> Prop) :
  P [] -> (forall a, P [a]) -> (forall a b, P [a; b]) ->
  (forall a b c rest, P rest -> P (a :: b :: c :: rest)) ->
  forall l, P l.
Proof.
  intros H0 H1 H2 H3.
  assert (Hall : forall l, P l /\ (forall a, P (a :: l))
                           /\ (forall a b, P (a :: b :: l))).
  { induction l as [|c l (IH0 & IH1 & IH2)]; [auto|].
    split; [apply IH1|]. split; [intros a; apply IH2|].
    intros a b. apply H3, IH0. }
  intros l. apply Hall.
Qed.

Lemma toString_base64_sextets buffer :
  toString_base64 buffer =
    map base64_char (to_sextets buffer) ++ padding buffer.
Proof.
  induction buffer as [|a|a b|a b c rest IH] using list_ind3;
    try reflexivity.
  cbn [toString_base64 to_sextets padding]. rewrite IH, map_app, <- app_assoc.
  reflexivity.
Qed.

Lemma to_sextets_range buffer : Forall sextet (to_sextets buffer).
Proof.
  induction buffer as [|a|a b|a b c rest IH] using list_ind3;
    cbn [to_sextets];
    repeat match goal with
           | |- context [byte_value ?x] =>
               pose proof (byte_value_range x);
               generalize dependent (byte_value x); intros
           end;
    [constructor | | | apply Forall_app; split; [|exact IH]];
    repeat constructor; unfold sextet; divmod.
Qed.

Lemma from_to_sextets buffer : from_sextets (to_sextets buffer) = buffer.
Proof.
  induction buffer as [|a|a b|a b c rest IH] using list_ind3;
    cbn [to_sextets from_sextets app]; [reflexivity | | |];
    pose proof (byte_value_range a) as Ha.
  - f_equal. apply byte_of_eq. divmod.
  - pose proof (byte_value_range b) as Hb.
    f_equal; [|f_equal]; apply byte_of_eq; divmod.
  - pose proof (byte_value_range b) as Hb.
    pose proof (byte_value_range c) as Hc. rewrite IH.
    f_equal; [|f_equal; [|f_equal]]; apply byte_of_eq; divmod.
Qed.

Local Close Scope Z_scope.

Lemma filter_all {A} (keep : A -> bool) (l : list A) :
  Forall (fun a => keep a = true) l -> List.filter keep l = l.
Proof.
  induction 1 as [|a l Ha _ IH]; [reflexivity|].
  cbn. rewrite Ha, IH. reflexivity.
Qed.

Lemma chars_not_padding (S : list Z) (a : ascii) :
  Forall sextet S -> In a (map base64_char S) -> Ascii.eqb a "=" = false.
Proof.
  intros HS Ha. apply in_map_iff in Ha as (s & <- & Hs).
  rewrite Forall_forall in HS. apply list_elem_of_In in Hs.
  destruct (base64_char_ok s (HS s Hs)) as (_ & _ & Hne).
  apply Ascii.eqb_neq. exact Hne.
Qed.

Lemma filter_whitespace_chars (S : list Z) (pad : list ascii) :
  Forall sextet S -> Forall (fun a => a = "="%char) pad ->
  List.filter (fun a => negb (is_whitespace a)) (map base64_char S ++ pad) =
    map base64_char S ++ pad.
Proof.
  intros HS Hpad. apply filter_all, Forall_app. split.
  - apply Forall_forall. intros a Ha. apply list_elem_of_In in Ha.
    apply in_map_iff in Ha as (s & <- & Hs).
    rewrite Forall_forall in HS. apply list_elem_of_In in Hs.
    destruct (base64_char_ok s (HS s Hs)) as (_ & -> & _). reflexivity.
  - eapply Forall_impl; [exact Hpad|]. intros a ->. reflexivity.
Qed.

Lemma mapM_chars (S : list Z) :
  Forall sextet S -> mapM base64_value (map base64_char S) = Some S.
Proof.
  intros HS. apply mapM_Some_2.
  induction HS as [|s S Hs _ IH]; [constructor|].
  cbn [map]. constructor; [|exact IH]. apply base64_char_ok. exact Hs.
Qed.

Lemma strip_padding_chars (S : list Z) (pad : list ascii) :
  Forall sextet S ->
  pad = [] \/
  ((pad = ["="%char] \/ pad = ["="%char; "="%char]) /\
   (length (map base64_char S ++ pad)) mod 4 = 0) ->
  strip_padding (map base64_char S ++ pad) = map base64_char S.
Proof.
  intros HS Hpad. unfold strip_padding.
  assert (Hhead : forall a,
    In a (rev (map base64_char S)) -> Ascii.eqb a "=" = false).
  { intros a Ha. apply (chars_not_padding S a HS).
    apply in_rev. exact Ha. }
  set (X := map base64_char S) in *.
  assert (Hback : rev (rev X) = X) by apply rev_involutive.
  destruct Hpad as [-> | [[-> | ->] Hlen]].
  - rewrite app_nil_r. destruct (Nat.eqb (length X mod 4) 0); [|reflexivity].
    destruct (rev X) as [|a [|b r]]; [reflexivity | |];
      rewrite (Hhead a) by (left; reflexivity); reflexivity.
  - rewrite Hlen, rev_app_distr. cbn [rev app Nat.eqb].
    change (Ascii.eqb "=" "=") with true.
    destruct (rev X) as [|b r].
    + exact Hback.
    + rewrite (Hhead b) by (left; reflexivity). exact Hback.
  - rewrite Hlen, rev_app_distr. cbn [rev app Nat.eqb].
    change (Ascii.eqb "=" "=") with true. exact Hback.
Qed.

Lemma atob_chars (S : list Z) (pad : list ascii) :
  Forall sextet S ->
  pad = [] \/
  ((pad = ["="%char] \/ pad = ["="%char; "="%char]) /\
   (length (map base64_char S ++ pad)) mod 4 = 0) ->
  length S mod 4 <> 1 ->
  atob (map base64_char S ++ pad) = Some (from_sextets S).
Proof.
  intros HS Hpad Hlen. unfold atob.
  rewrite filter_whitespace_chars; [|exact HS|].
  - rewrite (strip_padding_chars S pad HS Hpad), length_map.
    destruct (Nat.eqb_spec (length S mod 4) 1); [contradiction|].
    rewrite (mapM_chars S HS). reflexivity.
  - destruct Hpad as [-> | [[-> | ->] _]]; repeat constructor.
Qed.

Lemma sextets_length buffer :
  exists m,
    (padding buffer = [] /\ length (to_sextets buffer) = 4 * m) \/
    (padding buffer = ["="%char] /\ length (to_sextets buffer) = 4 * m + 3) \/
    (padding buffer = ["="%char; "="%char]
     /\ length (to_sextets buffer) = 4 * m + 2).
Proof.
  induction buffer as [|a|a b|a b c rest [m IH]] using list_ind3.
  - exists 0. left. split; reflexivity.
  - exists 0. right. right. split; reflexivity.
  - exists 0. right. left. split; reflexivity.
  - exists (S m). cbn [padding to_sextets app length].
    destruct IH as [[-> ->] | [[-> ->] | [-> ->]]];
      [left | right; left | right; right]; split; try reflexivity; lia.
Qed.

Lemma mod4_sum (m r : nat) : r < 4 -> (4 * m + r) mod 4 = r.
Proof.
  intros Hr. rewrite Nat.add_comm, Nat.mul_comm, Nat.Div0.mod_add.
  apply Nat.mod_small. exact Hr.
Qed.

(** What [atob] makes of the text of a whole buffer: the buffer. *)
Lemma atob_toString_base64 buffer :
  atob (toString_base64 buffer) = Some buffer.
Proof.
  rewrite toString_base64_sextets.
  rewrite atob_chars; [rewrite from_to_sextets; reflexivity | | |].
  - apply to_sextets_range.
  - rewrite length_app, length_map.
    destruct (sextets_length buffer) as [m [[-> Hm] | [[-> Hm] | [-> Hm]]]];
      [left; reflexivity | right | right]; rewrite Hm; cbn [length];
      (split; [auto|]).
    + replace (4 * m + 3 + 1) with (4 * (m + 1) + 0) by lia.
      apply mod4_sum. lia.
    + replace (4 * m + 2 + 2) with (4 * (m + 1) + 0) by lia.
      apply mod4_sum. lia.
  - destruct (sextets_length buffer) as [m [[_ Hm] | [[_ Hm] | [_ Hm]]]];
      rewrite Hm.
    + replace (4 * m) with (4 * m + 0) by lia. rewrite mod4_sum; lia.
    + rewrite mod4_sum; lia.
    + rewrite mod4_sum; lia.
Qed.

Lemma toString_base64_length buffer : forall k,
  length buffer <= 3 * k -> length (toString_base64 buffer) <= 4 * k.
Proof.
  induction buffer as [|a|a b|a b c rest IH] using list_ind3; intros k Hk;
    cbn [toString_base64 length app] in *; try lia.
  specialize (IH (k - 1)). lia.
Qed.

Lemma whole_groups buffer : forall k,
  length buffer = 3 * k ->
  padding buffer = [] /\ length (to_sextets buffer) = 4 * k.
Proof.
  induction buffer as [|a|a b|a b c rest IH] using list_ind3; intros k Hk;
    cbn [padding to_sextets length app] in *; try lia.
  - split; [reflexivity | lia].
  - destruct (IH (k - 1)) as [Hpad Hlen]; [lia|]. split; [exact Hpad | lia].
Qed.

Lemma toString_base64_app buffer rest :
  padding buffer = [] ->
  toString_base64 (buffer ++ rest) =
    map base64_char (to_sextets buffer) ++ toString_base64 rest.
Proof.
  induction buffer as [|a|a b|a b c buffer IH] using list_ind3; intros Hpad;
    try discriminate; [reflexivity|].
  cbn [app toString_base64 to_sextets map]. rewrite IH by exact Hpad.
  reflexivity.
Qed.

Lemma from_sextets_app buffer (T : list Z) :
  padding buffer = [] ->
  from_sextets (to_sextets buffer ++ T) = buffer ++ from_sextets T.
Proof.
  induction buffer as [|a|a b|a b c buffer IH] using list_ind3; intros Hpad;
    try discriminate; [reflexivity|].
  pose proof (from_to_sextets [a; b; c]) as Hgroup.
  cbn [to_sextets from_sextets app] in Hgroup |- *.
  injection Hgroup as -> -> ->. rewrite IH by exact Hpad. reflexivity.
Qed.

Lemma first_two_chars a rest :
  exists s1 s2 : Z,
    take 2 (toString_base64 (a :: rest)) = [base64_char s1; base64_char s2]
    /\ sextet s1 /\ sextet s2 /\ from_sextets [s1; s2] = [a].
Proof.
  pose proof (to_sextets_range [a]) as Hone.
  pose proof (from_to_sextets [a]) as Hback.
  pose proof (byte_value_range a) as Ha.
  destruct rest as [|b [|c rest]].
  - eexists _, _. split; [reflexivity|].
    cbn [to_sextets] in Hone, Hback.
    inversion Hone as [|? ? H1 Hrest]; subst.
    inversion Hrest as [|? ? H2 _]; subst. auto.
  - pose proof (to_sextets_range [a; b]) as Htwo.
    pose proof (byte_value_range b) as Hb.
    eexists _, _. split; [reflexivity|].
    cbn [to_sextets] in Htwo.
    inversion Htwo as [|? ? H1 Hrest]; subst.
    inversion Hrest as [|? ? H2 _]; subst.
    split; [exact H1|]. split; [exact H2|].
    cbn [from_sextets]. f_equal. apply byte_of_eq.
    clear -Ha Hb. divmod.
  - pose proof (to_sextets_range [a; b]) as Htwo.
    pose proof (byte_value_range b) as Hb.
    eexists _, _. split; [reflexivity|].
    cbn [to_sextets] in Htwo.
    inversion Htwo as [|? ? H1 Hrest]; subst.
    inversion Hrest as [|? ? H2 _]; subst.
    split; [exact H1|]. split; [exact H2|].
    cbn [from_sextets]. f_equal. apply byte_of_eq.
    clear -Ha Hb. divmod.
Qed.

(** The first 50 characters of the base64 text of a buffer decode to its
    first 37 bytes. *)
Lemma atob_first_50 buffer :
  atob (take 50 (toString_base64 buffer)) = Some (take 37 buffer).
Proof.
  destruct (decide (length buffer <= 36)) as [Hshort|Hlong].
  - pose proof (toString_base64_length buffer 12 ltac:(lia)) as Hlen.
    rewrite (take_ge (toString_base64 buffer)) by lia.
    rewrite (take_ge buffer) by lia. apply atob_toString_base64.
  - assert (Hsplit : buffer = take 36 buffer ++ drop 36 buffer)
      by (symmetry; apply take_drop).
    assert (Hlen36 : length (take 36 buffer) = 3 * 12)
      by (rewrite length_take; lia).
    destruct (whole_groups _ _ Hlen36) as [Hpad Hsext].
    destruct (drop 36 buffer) as [|a rest] eqn:Hdrop.
    { apply (f_equal length) in Hdrop. rewrite length_drop in Hdrop.
      cbn in Hdrop. lia. }
    assert (Hlook : buffer !! 36 = Some a).
    { rewrite <- (Nat.add_0_r 36), <- lookup_drop, Hdrop. reflexivity. }
    rewrite (take_S_r buffer 36 a Hlook).
    rewrite Hsplit at 1. rewrite (toString_base64_app _ _ Hpad).
    change 50 with (48 + 2).
    rewrite take_app_add' by (rewrite length_map; lia).
    destruct (first_two_chars a rest) as (s1 & s2 & -> & Hs1 & Hs2 & Hback).
    change [base64_char s1; base64_char s2]
      with (map base64_char [s1; s2]).
    rewrite <- map_app, <- (app_nil_r (map _ _)).
    rewrite atob_chars.
    + rewrite (from_sextets_app _ _ Hpad), Hback. reflexivity.
    + apply Forall_app. split; [apply to_sextets_range|].
      constructor; [exact Hs1|]. constructor; [exact Hs2|]. constructor.
    + left. reflexivity.
    + rewrite length_app, Hsext. cbn. lia.
Qed.

(** ** [getPngDimensions] *)

Local Open Scope Z_scope.

Lemma wrap32_range z : - 2 ^ 31 <= wrap32 z < 2 ^ 31.
Proof.
  unfold wrap32. pose proof (Z.mod_pos_bound (z + 2 ^ 31) (2 ^ 32)). lia.
Qed.

Lemma getInt32_range buffer byteOffset z :
  getInt32 buffer byteOffset = Some z -> - 2 ^ 31 <= z < 2 ^ 31.
Proof.
  unfold getInt32.
  destruct (take 4 (drop byteOffset buffer)) as [|b0 [|b1 [|b2 [|b3 [|? ?]]]]];
    try discriminate.
  intros [= <-]. apply wrap32_range.
Qed.

Lemma getInt32_short buffer byteOffset :
  (length buffer < byteOffset + 4)%nat -> getInt32 buffer byteOffset = None.
Proof.
  intros Hlen. unfold getInt32.
  assert (Hfew : (length (take 4 (drop byteOffset buffer)) < 4)%nat)
    by (rewrite length_take, length_drop; lia).
  destruct (take 4 (drop byteOffset buffer)) as [|b0 [|b1 [|b2 [|b3 [|? ?]]]]];
    try reflexivity; cbn in Hfew; lia.
Qed.

Lemma getInt32_bytes (z : Z) (before after : list byte) :
  - 2 ^ 31 <= z < 2 ^ 31 ->
  getInt32 (before ++ int32_bytes z ++ after) (length before) = Some z.
Proof.
  intros Hz. unfold getInt32. rewrite drop_app_length.
  cbn [int32_bytes app take]. rewrite !byte_value_of. f_equal.
  unfold wrap32. divmod.
Qed.

Lemma getInt32_sign buffer byteOffset z :
  getInt32 buffer byteOffset = Some z ->
  exists b0,
    buffer !! byteOffset = Some b0 /\ (z < 0 <-> 128 <= byte_value b0).
Proof.
  unfold getInt32.
  destruct (take 4 (drop byteOffset buffer))
    as [|b0 [|b1 [|b2 [|b3 [|? ?]]]]] eqn:Htake; try discriminate.
  intros [= <-]. exists b0. split.
  - assert (Hfirst : take 4 (drop byteOffset buffer) !! 0%nat = Some b0)
      by (rewrite Htake; reflexivity).
    rewrite lookup_take_lt, lookup_drop, Nat.add_0_r in Hfirst by lia.
    exact Hfirst.
  - pose proof (byte_value_range b0). pose proof (byte_value_range b1).
    pose proof (byte_value_range b2). pose proof (byte_value_range b3).
    unfold wrap32. split; intros Hsign; divmod.
Qed.

(** The two numbers [getPngDimensions] returns are signed 32-bit
    integers, whatever the text is, and each is negative exactly when the
    first of its four bytes, byte 16 or byte 20 of the decoded text, has
    its high bit set. *)
Theorem getPngDimensions_int32 base64 (width height : Z) :
  getPngDimensions base64 = inr (width, height) ->
  (- 2 ^ 31 <= width < 2 ^ 31 /\ - 2 ^ 31 <= height < 2 ^ 31)
  /\ exists decoded b16 b20,
       atob (take 50 base64) = Some decoded
       /\ decoded !! 16%nat = Some b16 /\ decoded !! 20%nat = Some b20
       /\ (width < 0 <-> 128 <= byte_value b16)
       /\ (height < 0 <-> 128 <= byte_value b20).
Proof.
  unfold getPngDimensions.
  destruct (atob (take 50 base64)) as [decoded|]; [|discriminate].
  cbn zeta.
  destruct (getInt32 _ 0) as [w|] eqn:Hw; [|discriminate].
  destruct (getInt32 _ 4) as [h|] eqn:Hh; [|discriminate].
  intros [= <- <-].
  split; [split; eapply getInt32_range; eassumption|].
  destruct (getInt32_sign _ _ _ Hw) as (b16 & H16 & Hwsign).
  destruct (getInt32_sign _ _ _ Hh) as (b20 & H20 & Hhsign).
  rewrite lookup_take_lt, lookup_drop in H16 by lia.
  rewrite lookup_take_lt, lookup_drop in H20 by lia.
  exists decoded, b16, b20. auto.
Qed.

Lemma getPngDimensions_toString buffer :
  getPngDimensions (toString_base64 buffer) =
    let header := take 8 (drop 16 buffer) in
    match getInt32 header 0 with
    | None => inl RangeError
    | Some width =>
        match getInt32 header 4 with
        | None => inl RangeError
        | Some height => inr (width, height)
        end
    end.
Proof.
  unfold getPngDimensions. rewrite atob_first_50.
  replace (take 8 (drop 16 (take 37 buffer))) with (take 8 (drop 16 buffer));
    [reflexivity|].
  rewrite !take_drop_commute, take_take. reflexivity.
Qed.

(** [getPngDimensions(encodeAsBase64(file))] reads the bytes 16 to 23 of
    the file: for a file that has, after 16 bytes, the big-endian bytes of
    [width] and of [height], it returns [width] and [height]. *)
Theorem getPngDimensions_reads_header (before after : list byte)
    (width height : Z) :
  length before = 16%nat ->
  - 2 ^ 31 <= width < 2 ^ 31 -> - 2 ^ 31 <= height < 2 ^ 31 ->
  getPngDimensions
    (toString_base64
       (before ++ int32_bytes width ++ int32_bytes height ++ after))
  = inr (width, height).
Proof.
  intros Hlen Hw Hh. rewrite getPngDimensions_toString. cbn zeta.
  replace (take 8 (drop 16
             (before ++ int32_bytes width ++ int32_bytes height ++ after)))
    with (int32_bytes width ++ int32_bytes height).
  - pose proof (getInt32_bytes width [] (int32_bytes height) Hw) as Hwidth.
    change (getInt32 (int32_bytes width ++ int32_bytes height) 0 = Some width)
      in Hwidth.
    pose proof (getInt32_bytes height (int32_bytes width) [] Hh) as Hheight.
    rewrite app_nil_r in Hheight.
    change (getInt32 (int32_bytes width ++ int32_bytes height) 4 = Some height)
      in Hheight.
    rewrite Hwidth, Hheight. reflexivity.
  - rewrite <- Hlen, drop_app_length. reflexivity.
Qed.

Lemma getPngDimensions_reads_header_png :
  length (take 16 (png_start 1000 564)) = 16%nat
  /\ - 2 ^ 31 <= 1000 < 2 ^ 31 /\ - 2 ^ 31 <= 564 < 2 ^ 31
  /\ getPngDimensions (toString_base64 (png_start 1000 564 ++ [x08; x06]))
     = inr (1000, 564).
Proof.
  assert (Hlen : length (take 16 (png_start 1000 564)) = 16%nat)
    by reflexivity.
  assert (Hw : - 2 ^ 31 <= 1000 < 2 ^ 31) by lia.
  assert (Hh : - 2 ^ 31 <= 564 < 2 ^ 31) by lia.
  split; [exact Hlen|]. split; [exact Hw|]. split; [exact Hh|].
  exact (getPngDimensions_reads_header (take 16 (png_start 1000 564))
           [x08; x06] 1000 564 Hlen Hw Hh).
Defined.

(** A file of fewer than 24 bytes makes [getPngDimensions] throw a
    [RangeError] (which [trimItem] catches and turns into a rejection). *)
Theorem getPngDimensions_short_file (buffer : list byte) :
  (length buffer < 24)%nat ->
  getPngDimensions (toString_base64 buffer) = inl RangeError.
Proof.
  intros Hlen. rewrite getPngDimensions_toString. cbn zeta.
  destruct (getInt32 (take 8 (drop 16 buffer)) 0) as [w|]; [|reflexivity].
  rewrite getInt32_short; [reflexivity|].
  rewrite length_take, length_drop. lia.
Qed.

Lemma getPngDimensions_short_file_example :
  (length (take 23 (png_start 1000 564)) < 24)%nat
  /\ getPngDimensions (toString_base64 (take 23 (png_start 1000 564)))
     = inl RangeError.
Proof.
  assert (Hlen : (length (take 23 (png_start 1000 564)) < 24)%nat)
    by (cbn; lia).
  split; [exact Hlen|].
  exact (getPngDimensions_short_file (take 23 (png_start 1000 564)) Hlen).
Defined.

Lemma getPngDimensions_int32_png :
  getPngDimensions (toString_base64 (png_start 1000 (-2))) = inr (1000, -2)
  /\ (- 2 ^ 31 <= 1000 < 2 ^ 31 /\ - 2 ^ 31 <= -2 < 2 ^ 31)
  /\ exists decoded b16 b20,
       atob (take 50 (toString_base64 (png_start 1000 (-2)))) = Some decoded
       /\ decoded !! 16%nat = Some b16 /\ decoded !! 20%nat = Some b20
       /\ (1000 < 0 <-> 128 <= byte_value b16)
       /\ (-2 < 0 <-> 128 <= byte_value b20).
Proof.
  assert (Hdims :
    getPngDimensions (toString_base64 (png_start 1000 (-2)))
    = inr (1000, -2)) by (vm_compute; reflexivity).
  split; [exact Hdims|].
  exact (getPngDimensions_int32 _ 1000 (-2) Hdims).
Defined.

(** The base64 text [encodeAsBase64] makes of a file decodes back to the
    file, and its first 50 characters, which are all that
    [getPngDimensions] decodes, to the first 37 bytes of the file. *)
Theorem base64_round_trip f filepath (buffer : list byte) :
  readFileSync f filepath = inr buffer ->
  exists base64,
    encodeAsBase64 f filepath = inr base64
    /\ atob base64 = Some buffer
    /\ atob (take 50 base64) = Some (take 37 buffer).
Proof.
  intros Hread. exists (toString_base64 buffer).
  unfold encodeAsBase64. rewrite Hread.
  split; [reflexivity|]. split; [apply atob_toString_base64|].
  apply atob_first_50.
Qed.

Lemma base64_round_trip_example :
  readFileSync example_files "/s.png" = inr [x89; x50; x4e; x47]
  /\ exists base64,
       encodeAsBase64 example_files "/s.png" = inr base64
       /\ atob base64 = Some [x89; x50; x4e; x47]
       /\ atob (take 50 base64) = Some (take 37 [x89; x50; x4e; x47]).
Proof.
  assert (Hread :
    readFileSync example_files "/s.png" = inr [x89; x50; x4e; x47])
    by (vm_compute; reflexivity).
  split; [exact Hread|].
  exact (base64_round_trip example_files "/s.png" [x89; x50; x4e; x47] Hread).
Defined.

(** ** The canvas [trimItem] makes of a file *)

Lemma set_dimension_int32 (default v : Z) :
  - 2 ^ 31 <= v < 2 ^ 31 ->
  set_dimension default v = if 0 <=? v then v else default.
Proof.
  intros Hv. unfold set_dimension.
  destruct (Z.leb_spec 0 v), (Z.ltb_spec (v mod 2 ^ 32) (2 ^ 31));
    try reflexivity; divmod.
Qed.

Lemma getInt32_long buffer byteOffset :
  (byteOffset + 4 <= length buffer)%nat ->
  is_Some (getInt32 buffer byteOffset).
Proof.
  intros Hlen. unfold getInt32.
  assert (Hfour : length (take 4 (drop byteOffset buffer)) = 4%nat)
    by (rewrite length_take, length_drop; lia).
  destruct (take 4 (drop byteOffset buffer)) as [|b0 [|b1 [|b2 [|b3 [|? ?]]]]];
    try discriminate Hfour.
  eexists. reflexivity.
Qed.

(** When does [trimItem] reject?  Exactly when the path is no file
    ([readFileSync] throws) or the file has fewer than 24 bytes
    ([getPngDimensions] throws a [RangeError]); any longer file gives a
    canvas, since the text [encodeAsBase64] hands to [atob] is always
    valid. *)
Theorem trimItem_rejects f targFile :
  match f !! targFile with
  | Some (File bytes pixels) =>
      if decide (length bytes < 24)%nat
      then trimItem f targFile = Rejecting (Thrown RangeError)
      else exists width height,
             getPngDimensions (toString_base64 bytes) = inr (width, height)
             /\ trimItem f targFile =
                  Loading targFile
                    (canvas.mk (set_dimension 300 width)
                       (set_dimension 150 height) pixels)
  | _ => trimItem f targFile = Rejecting (ReadError targFile)
  end.
Proof.
  unfold trimItem, encodeAsBase64, readFileSync, drawImage.
  destruct (f !! targFile) as [[bytes pixels|entries]|]; try reflexivity.
  rewrite getPngDimensions_toString. cbn zeta.
  destruct (decide (length bytes < 24)%nat) as [Hshort|Hlong].
  - destruct (getInt32 (take 8 (drop 16 bytes)) 0) as [w|]; [|reflexivity].
    rewrite getInt32_short; [reflexivity|].
    rewrite length_take, length_drop. lia.
  - destruct (getInt32_long (take 8 (drop 16 bytes)) 0) as [w ->];
      [rewrite length_take, length_drop; lia|].
    destruct (getInt32_long (take 8 (drop 16 bytes)) 4) as [h ->];
      [rewrite length_take, length_drop; lia|].
    exists w, h. split; reflexivity.
Qed.

(** The size of the canvas is the one in the header of the file, bytes 16
    to 23; a negative number there (a first byte with the high bit set)
    leaves the canvas at its default size, 300 by 150. *)
Theorem trimItem_reads_header f targFile (before after pixels : list byte)
    (width height : Z) :
  length before = 16%nat ->
  - 2 ^ 31 <= width < 2 ^ 31 -> - 2 ^ 31 <= height < 2 ^ 31 ->
  f !! targFile =
    Some (File (before ++ int32_bytes width ++ int32_bytes height ++ after)
            pixels) ->
  trimItem f targFile =
    Loading targFile
      (canvas.mk (if 0 <=? width then width else 300)
         (if 0 <=? height then height else 150) pixels).
Proof.
  intros Hlen Hw Hh Hfile.
  unfold trimItem, encodeAsBase64, readFileSync, drawImage. rewrite Hfile.
  rewrite getPngDimensions_toString. cbn zeta.
  replace (take 8 (drop 16
             (before ++ int32_bytes width ++ int32_bytes height ++ after)))
    with (int32_bytes width ++ int32_bytes height)
    by (rewrite <- Hlen, drop_app_length; reflexivity).
  pose proof (getInt32_bytes width [] (int32_bytes height) Hw) as Hwidth.
  change (getInt32 (int32_bytes width ++ int32_bytes height) 0 = Some width)
    in Hwidth.
  pose proof (getInt32_bytes height (int32_bytes width) [] Hh) as Hheight.
  rewrite app_nil_r in Hheight.
  change (getInt32 (int32_bytes width ++ int32_bytes height) 4 = Some height)
    in Hheight.
  rewrite Hwidth, Hheight, !set_dimension_int32 by assumption. reflexivity.
Qed.

Lemma trimItem_reads_header_example :
  length (take 16 (png_start 4 3)) = 16%nat
  /\ - 2 ^ 31 <= 4 < 2 ^ 31 /\ - 2 ^ 31 <= 3 < 2 ^ 31
  /\ example_files !! "/e.png" =
       Some (File (take 16 (png_start 4 3) ++ int32_bytes 4 ++ int32_bytes 3
                     ++ [])
               (canvas.data small_square))
  /\ trimItem example_files "/e.png" = Loading "/e.png" small_square.
Proof.
  assert (Hlen : length (take 16 (png_start 4 3)) = 16%nat) by reflexivity.
  assert (Hw : - 2 ^ 31 <= 4 < 2 ^ 31) by lia.
  assert (Hh : - 2 ^ 31 <= 3 < 2 ^ 31) by lia.
  assert (Hfile :
    example_files !! "/e.png" =
      Some (File (take 16 (png_start 4 3) ++ int32_bytes 4 ++ int32_bytes 3
                    ++ [])
              (canvas.data small_square))) by (vm_compute; reflexivity).
  split; [exact Hlen|]. split; [exact Hw|]. split; [exact Hh|].
  split; [exact Hfile|].
  exact (trimItem_reads_header example_files "/e.png" _ _ _ 4 3 Hlen Hw Hh
           Hfile).
Defined.

(** ** An empty crop *)

(** With an integer padding of at least one pixel the crop is never
    empty: on every well-formed canvas, a fully transparent one included,
    [trimCanvas] throws nothing, writes one file and returns a record. *)
Theorem padding_never_empty c filepath (p : Z) d :
  canvas_ok c -> 1 <= p ->
  crop_error c (Num (Int p)) = None
  /\ exists res,
       trimCanvas c filepath (Num (Int p)) d =
         inr (d ++ [crop_write c filepath (Num (Int p))], res).
Proof.
  intros Hok Hp.
  destruct (crop_bound_from_scan c Hok) as (t & l & r & b & Hx & Hy & Hcrop).
  assert (Herr : crop_error c (Num (Int p)) = None).
  { rewrite (crop_error_int c _ _ _ _ _ Hok (Hcrop p))
      by (unfold clamp_to; lia).
    destruct (Z.eqb_spec
                (clamp_to (canvas.width c) (r + p)
                 - clamp_to (canvas.width c) (l - p)) 0);
      [unfold clamp_to in *; lia|].
    destruct (Z.eqb_spec
                (clamp_to (canvas.height c) (b + p)
                 - clamp_to (canvas.height c) (t - p)) 0);
      [unfold clamp_to in *; lia|].
    reflexivity. }
  split; [exact Herr|]. rewrite trimCanvas_eq, Herr. eexists. reflexivity.
Qed.

Lemma padding_never_empty_transparent :
  canvas_ok small_transparent /\ 1 <= 1
  /\ crop_error small_transparent (Num (Int 1)) = None
  /\ crop_error small_transparent (Num (Int 0)) = Some IndexSizeError.
Proof.
  assert (Hp : 1 <= 1) by lia.
  split; [exact small_transparent_ok|]. split; [exact Hp|].
  split; [|reflexivity].
  exact (proj1 (padding_never_empty small_transparent "/t.png" 1 []
                  small_transparent_ok Hp)).
Defined.
